(** * TacticalMapRenderer: a shallow embedding of [render] and its helpers

    The repository holds two versions of the renderer class:
    - [IndexTs]  embeds [src/index.ts]: assets are loaded one after the other
      through the process-wide [assetsCache], and drawn cells get a text label;
    - [Part000]  embeds the earlier version: every load is issued first, the
      promises are awaited by position, there is no cache and no label.

    Both run in the same small monad: a state (the module-level cache), a
    thrown error that aborts the rest of the computation, and the trace of the
    calls made to the [canvas] backend, in the order they are made.

    JavaScript numbers are modelled exactly: cell numbers and the row width as
    [Z] (the code takes [%] and [Math.floor] of their quotient), pixel
    coordinates as [Q] (the code halves a cell width for the label). On
    integers [%] is [Z.rem] (the sign of the dividend) and
    [Math.floor(a / b)] is [Z.div] (rounding down) as long as [b] is not
    zero; the theorems on positions assume a positive row width. *)

From Stdlib Require Import ZArith QArith Lia Lqa.
From stdpp Require Import base gmap list strings pretty.

Open Scope Z_scope.

(** ** Data model *)

(** A decoded [canvas.Image]. *)
Record Image := mkImage { src : string; width : Z; height : Z }.

(** [interfaces/Options]. *)
Module Options.
Record t := mk {
  assetPath : string;
  displayStartCells : bool;
  addWatermark : bool
}.
End Options.

(** The [Constants] enumeration of [interfaces/Map]. Its values are not part
    of the sources at hand, so every definition takes them as a parameter. *)
Module Constants.
Record t := mk {
  WIDTH : Q;
  HEIGHT : Q;
  MAP_WIDTH : Z;
  CELL_WIDTH : Q;
  CELL_HEIGHT : Q;
  CELL_HALF_WIDTH : Q;
  CELL_HALF_HEIGHT : Q;
  CELL_OFFSET : Q;
  CELL_DOUBLE_HEIGHT : Q
}.
End Constants.

(** One entry of [cellsData]. *)
Record Cell := mkCell {
  cellNumber : Z;
  mov : bool;
  los : bool;
  nonWalkableDuringFight : bool;
  blue : bool;
  red : bool
}.

(** The object returned by [loadAssets]. A field holds [None] where the
    JavaScript object holds [undefined]. *)
Record LoadedAssets := mkAssets {
  high : option Image;
  gray : option Image;
  purple : option Image;
  ally : option Image;
  enemy : option Image;
  logo : option Image
}.

(** [assets[key]] on the object returned by [loadAssets]. *)
Definition fieldOf (key : string) (assets : LoadedAssets) : option Image :=
  if String.eqb key "high" then high assets
  else if String.eqb key "gray" then gray assets
  else if String.eqb key "purple" then purple assets
  else if String.eqb key "ally" then ally assets
  else if String.eqb key "enemy" then enemy assets
  else if String.eqb key "logo" then logo assets
  else None.

(** What [img.toBuffer()] hands back. *)
Inductive Buffer := EncodedCanvas.

(** ** Calls to the backend *)

Inductive Event :=
| LoadImage (path : string)          (* canvas.loadImage(path) is called *)
| Await (path : string)              (* the promise of that load is awaited *)
| CreateCanvas (w h : Q)
| GetContext (kind : string)
| SetFillStyle (style : string)
| FillRect (x y w h : Q)
| DrawImage (image : option Image) (dx dy dw dh : Q)
| SetFont (font : string)
| SetTextAlign (align : string)
| SetTextBaseline (baseline : string)
| FillText (text : string) (x y : Q)
| ToBuffer.

(** A rejected load, naming the path that could not be decoded. *)
Inductive Error := LoadError (path : string).

Inductive Outcome (A : Type) :=
| Returned (a : A)
| Thrown (e : Error).
Arguments Returned {A} a.
Arguments Thrown {A} e.

(** ** The monad: state, exceptions and a trace of backend calls *)

Definition M (S A : Type) : Type := S → Outcome A * S * list Event.

Section Monad.
Context {S : Type}.

Definition ret {A} (a : A) : M S A := λ s, (Returned a, s, []).

Definition bind {A B} (m : M S A) (f : A → M S B) : M S B := λ s,
  match m s with
  | (Returned a, s1, t1) =>
      match f a s1 with (r, s2, t2) => (r, s2, t1 ++ t2) end
  | (Thrown e, s1, t1) => (Thrown e, s1, t1)
  end.

Definition throw {A} (e : Error) : M S A := λ s, (Thrown e, s, []).

Definition emit (e : Event) : M S unit := λ s, (Returned tt, s, [e]).

Definition get : M S S := λ s, (Returned s, s, []).

Definition modify (f : S → S) : M S unit := λ s, (Returned tt, f s, []).
End Monad.

Notation "x <- m ;; k" := (bind m (λ x, k))
  (at level 100, m at next level, right associativity,
   format "'[v' x  <-  m  ;;  '/' k ']'").
Notation "m ;;; k" := (bind m (λ _, k))
  (at level 100, right associativity, format "'[v' m  ;;;  '/' k ']'").

Section Run.
Context {S A : Type}.

Definition outcomeOf (m : M S A) (s : S) : Outcome A := (m s).1.1.
Definition stateOf (m : M S A) (s : S) : S := (m s).1.2.
Definition traceOf (m : M S A) (s : S) : list Event := (m s).2.
End Run.

(** [for (const a of l) body(a)] *)
Fixpoint forOf {S A} (l : list A) (body : A → M S unit) : M S unit :=
  match l with
  | [] => ret tt
  | a :: l' => body a ;;; forOf l' body
  end.

(** A [for ... of] loop whose body updates a local variable [acc]. *)
Fixpoint forOfAcc {S A B} (l : list A) (body : B → A → M S B) (acc : B)
  : M S B :=
  match l with
  | [] => ret acc
  | a :: l' => acc' <- body acc a ;; forOfAcc l' body acc'
  end.

(** ** The backend capabilities used by both versions *)

(** A pending [Promise<canvas.Image>]: the path being decoded and what the
    promise settles to ([None]: it rejects). *)
Record Promise := mkPromise { promisePath : string; settled : option Image }.

Section Backend.
Context {S : Type}.
(** What decoding the file at a path gives; [None] when the file is missing
    or corrupt. *)
Variable decode : string → option Image.

(** [canvas.loadImage(path)]: starts the decode and returns its promise. *)
Definition loadImage (path : string) : M S Promise :=
  emit (LoadImage path) ;;;
  ret {| promisePath := path; settled := decode path |}.

(** [await promise] *)
Definition await (promise : Promise) : M S Image :=
  emit (Await (promisePath promise)) ;;;
  match settled promise with
  | Some image => ret image
  | None => throw (LoadError (promisePath promise))
  end.

(** [await promises[i]], where [promises[i]] may be [undefined]. *)
Definition awaitAt (promises : list Promise) (i : nat)
  : M S (option Image) :=
  match promises !! i with
  | Some promise => image <- await promise ;; ret (Some image)
  | None => ret None
  end.

(** [ctx.drawImage(image, dx, dy, dw, dh)] *)
Definition drawImage (image : option Image) (dx dy dw dh : Q) : M S unit :=
  emit (DrawImage image dx dy dw dh).
End Backend.

(** The [assets] object of [loadAssets], as [Object.entries] lists it: the
    keys in the order they were assigned. *)
Definition assetEntries (options : Options.t) : list (string * string) :=
  let assets :=
    [("high", "areaUnitHigh"); ("gray", "grayCell"); ("purple", "purpleCell")] in
  let assets :=
    if Options.displayStartCells options
    then assets ++ [("ally", "areaUnitAlly"); ("enemy", "areaUnitEnemy")]
    else assets in
  let assets :=
    if Options.addWatermark options
    then assets ++ [("logo", "E-bou")]
    else assets in
  assets.

(** [`${this.options.assetPath}/${value}.png`] *)
Definition resolvePath (options : Options.t) (value : string) : string :=
  Options.assetPath options +:+ "/" +:+ value +:+ ".png".

Arguments resolvePath : simpl never.

(** The resolved paths of a list of entries, in order. *)
Definition entryPaths (options : Options.t) (entries : list (string * string))
  : list string :=
  (λ entry, resolvePath options entry.2) <$> entries.

(** The resolved paths one render asks for, in order. *)
Definition requiredPaths (options : Options.t) : list string :=
  entryPaths options (assetEntries options).


(** ** [src/index.ts] *)

Module IndexTs.

(** [interfaces/Map], as far as [render] reads it: [map.mapData.cellsData]. *)
Record MapData := mkMapData { cellsData : list Cell }.
Record Map := mkMap { mapData : MapData }.

Section Renderer.
Variable K : Constants.t.
Variable decode : string → option Image.

(** The state is the module-level [assetsCache]. *)
Abbreviation Cache := (gmap string Image).

(** One turn of the loop of [loadAssets]; [loadedAssets] is the local object
    the loop fills. *)
Definition loadAsset (options : Options.t) (loadedAssets : gmap string Image)
    (entry : string * string) : M Cache (gmap string Image) :=
  let '(key, value) := entry in
  let assetPath := resolvePath options value in
  assetsCache <- get ;;
  match assetsCache !! assetPath with
  | Some cached => ret (<[key := cached]> loadedAssets)
  | None =>
      promise <- loadImage decode assetPath ;;
      image <- await promise ;;
      modify (<[assetPath := image]>) ;;;
      ret (<[key := image]> loadedAssets)
  end.

Definition loadAssets (options : Options.t) : M Cache LoadedAssets :=
  loadedAssets <- forOfAcc (assetEntries options) (loadAsset options) ∅ ;;
  ret {| high := loadedAssets !! "high";
         gray := loadedAssets !! "gray";
         purple := loadedAssets !! "purple";
         ally := loadedAssets !! "ally";
         enemy := loadedAssets !! "enemy";
         logo := loadedAssets !! "logo" |}.

Definition addWatermark (asset : Image) : M Cache unit :=
  let assetWidth := Z.min 100 (width asset) in
  let assetHeight := Z.min 100 (height asset) in
  let margin := 10 in
  let xPos := (Constants.WIDTH K - inject_Z assetWidth - inject_Z margin)%Q in
  let yPos := (Constants.HEIGHT K - inject_Z assetHeight - inject_Z margin)%Q in
  drawImage (Some asset) xPos yPos (inject_Z assetWidth) (inject_Z assetHeight).

(** The body of the loop of [render] over the cells. *)
Definition drawCell (assets : LoadedAssets) (options : Options.t) (cell : Cell)
  : M Cache unit :=
  let cellId := cellNumber cell in
  let cellCoords_x := Z.rem cellId (Constants.MAP_WIDTH K) in
  let cellCoords_y := cellId / Constants.MAP_WIDTH K in
  let x := (inject_Z (Z.rem cellId (Constants.MAP_WIDTH K)) * Constants.CELL_WIDTH K
            + inject_Z (Z.rem (cellId / Constants.MAP_WIDTH K) 2)
              * Constants.CELL_HALF_WIDTH K)%Q in
  let y := (inject_Z (cellId / Constants.MAP_WIDTH K)
            * Constants.CELL_HALF_HEIGHT K)%Q in
  let cellNeedToBeDraw := false in
  cellNeedToBeDraw <-
    (if mov cell && negb (nonWalkableDuringFight cell) then
       let asset :=
         if Z.rem cellCoords_y 2 =? 0 then gray assets else purple assets in
       drawImage asset x y (Constants.CELL_WIDTH K) (Constants.CELL_HEIGHT K) ;;;
       ret true
     else ret cellNeedToBeDraw) ;;
  (if negb (los cell) && negb (nonWalkableDuringFight cell) then
     drawImage (high assets) x (y + Constants.CELL_OFFSET K)%Q
       (Constants.CELL_WIDTH K) (Constants.CELL_DOUBLE_HEIGHT K)
   else ret tt) ;;;
  cellNeedToBeDraw <-
    (if blue cell && bool_decide (is_Some (ally assets))
        && Options.displayStartCells options then
       drawImage (ally assets) x (y + Constants.CELL_OFFSET K)%Q
         (Constants.CELL_WIDTH K) (Constants.CELL_DOUBLE_HEIGHT K) ;;;
       ret true
     else ret cellNeedToBeDraw) ;;
  cellNeedToBeDraw <-
    (if red cell && bool_decide (is_Some (enemy assets))
        && Options.displayStartCells options then
       drawImage (enemy assets) x (y + Constants.CELL_OFFSET K)%Q
         (Constants.CELL_WIDTH K) (Constants.CELL_DOUBLE_HEIGHT K) ;;;
       ret true
     else ret cellNeedToBeDraw) ;;
  if cellNeedToBeDraw then
    emit (SetFillStyle "white") ;;;
    emit (SetFont "12px Arial") ;;;
    emit (SetTextAlign "center") ;;;
    emit (SetTextBaseline "middle") ;;;
    emit (FillText (pretty cellId)
            (x + Constants.CELL_WIDTH K / 2)%Q
            (y + Constants.CELL_HEIGHT K / 2)%Q)
  else ret tt.

Definition render (map : Map) (options : Options.t) : M Cache Buffer :=
  assets <- loadAssets options ;;
  emit (CreateCanvas (Constants.WIDTH K) (Constants.HEIGHT K)) ;;;
  emit (GetContext "2d") ;;;
  emit (SetFillStyle "black") ;;;
  emit (FillRect 0 0 (Constants.WIDTH K) (Constants.HEIGHT K)) ;;;
  forOf (cellsData (mapData map)) (drawCell assets options) ;;;
  (if Options.addWatermark options then
     match logo assets with
     | Some asset => addWatermark asset
     | None => ret tt
     end
   else ret tt) ;;;
  emit ToBuffer ;;;
  ret EncodedCanvas.

End Renderer.
End IndexTs.

(** ** The earlier version of the class *)

Module Part000.

(** [interfaces/Map], as far as [render] reads it: [map.cellsData]. *)
Record Map := mkMap { cellsData : list Cell }.

Section Renderer.
Variable K : Constants.t.
Variable decode : string → option Image.

(** This version keeps no state between renders. *)
Abbreviation NoState := unit.

Definition loadAssets (options : Options.t) : M NoState LoadedAssets :=
  promises <-
    forOfAcc (assetEntries options)
      (λ (promises : list Promise) '(_, value),
         promise <- loadImage decode (resolvePath options value) ;;
         ret (promises ++ [promise]))
      [] ;;
  high <- awaitAt promises 0 ;;
  gray <- awaitAt promises 1 ;;
  purple <- awaitAt promises 2 ;;
  ally <- awaitAt promises 3 ;;
  enemy <- awaitAt promises 4 ;;
  logo <- awaitAt promises 5 ;;
  ret {| high := high; gray := gray; purple := purple;
         ally := ally; enemy := enemy; logo := logo |}.

Definition addWatermark (asset : Image) : M NoState unit :=
  let assetWidth := Z.min 100 (width asset) in
  let assetHeight := Z.min 100 (height asset) in
  let margin := 10 in
  let xPos := (Constants.WIDTH K - inject_Z assetWidth - inject_Z margin)%Q in
  let yPos := (Constants.HEIGHT K - inject_Z assetHeight - inject_Z margin)%Q in
  drawImage (Some asset) xPos yPos (inject_Z assetWidth) (inject_Z assetHeight).

(** The body of the loop of [render] over the cells. *)
Definition drawCell (assets : LoadedAssets) (options : Options.t) (cell : Cell)
  : M NoState unit :=
  let cellId := cellNumber cell in
  let cellCoords_x := Z.rem cellId (Constants.MAP_WIDTH K) in
  let cellCoords_y := cellId / Constants.MAP_WIDTH K in
  let x := (inject_Z (Z.rem cellId (Constants.MAP_WIDTH K)) * Constants.CELL_WIDTH K
            + inject_Z (Z.rem (cellId / Constants.MAP_WIDTH K) 2)
              * Constants.CELL_HALF_WIDTH K)%Q in
  let y := (inject_Z (cellId / Constants.MAP_WIDTH K)
            * Constants.CELL_HALF_HEIGHT K)%Q in
  (if mov cell && negb (nonWalkableDuringFight cell) then
     let asset :=
       if Z.rem cellCoords_y 2 =? 0 then gray assets else purple assets in
     drawImage asset x y (Constants.CELL_WIDTH K) (Constants.CELL_HEIGHT K)
   else ret tt) ;;;
  (if negb (los cell) && negb (nonWalkableDuringFight cell) then
     drawImage (high assets) x (y + Constants.CELL_OFFSET K)%Q
       (Constants.CELL_WIDTH K) (Constants.CELL_DOUBLE_HEIGHT K)
   else ret tt) ;;;
  if Options.displayStartCells options then
    (if blue cell && bool_decide (is_Some (ally assets)) then
       drawImage (ally assets) x (y + Constants.CELL_OFFSET K)%Q
         (Constants.CELL_WIDTH K) (Constants.CELL_DOUBLE_HEIGHT K)
     else ret tt) ;;;
    (if red cell && bool_decide (is_Some (enemy assets)) then
       drawImage (enemy assets) x (y + Constants.CELL_OFFSET K)%Q
         (Constants.CELL_WIDTH K) (Constants.CELL_DOUBLE_HEIGHT K)
     else ret tt)
  else ret tt.

Definition render (map : Map) (options : Options.t) : M NoState Buffer :=
  assets <- loadAssets options ;;
  emit (CreateCanvas (Constants.WIDTH K) (Constants.HEIGHT K)) ;;;
  emit (GetContext "2d") ;;;
  emit (SetFillStyle "black") ;;;
  emit (FillRect 0 0 (Constants.WIDTH K) (Constants.HEIGHT K)) ;;;
  forOf (cellsData map) (drawCell assets options) ;;;
  (if Options.addWatermark options then
     match logo assets with
     | Some asset => addWatermark asset
     | None => ret tt
     end
   else ret tt) ;;;
  emit ToBuffer ;;;
  ret EncodedCanvas.

End Renderer.
End Part000.

(** ** A concrete setting to run the definitions in

    The values of [Constants] are not in the sources at hand: the ones below
    are sample values, used only to run the definitions. *)

Definition sampleConstants : Constants.t :=
  {| Constants.WIDTH := 1247; Constants.HEIGHT := 881;
     Constants.MAP_WIDTH := 14;
     Constants.CELL_WIDTH := 86; Constants.CELL_HEIGHT := 43;
     Constants.CELL_HALF_WIDTH := 43; Constants.CELL_HALF_HEIGHT := 43 # 2;
     Constants.CELL_OFFSET := 0; Constants.CELL_DOUBLE_HEIGHT := 86 |}.

(** A directory in which every file decodes, to an image named after it. *)
Definition decodeAll (path : string) : option Image :=
  Some {| src := path; width := 256; height := 64 |}.

(** A directory in which only the named file is missing. *)
Definition decodeAllBut (missing path : string) : option Image :=
  if decide (path = missing) then None else decodeAll path.

Definition sampleOptions : Options.t :=
  {| Options.assetPath := "assets"; Options.displayStartCells := false;
     Options.addWatermark := true |}.

Definition sampleAssets : LoadedAssets :=
  {| high := decodeAll "assets/areaUnitHigh.png";
     gray := decodeAll "assets/grayCell.png";
     purple := decodeAll "assets/purpleCell.png";
     ally := decodeAll "assets/areaUnitAlly.png";
     enemy := decodeAll "assets/areaUnitEnemy.png";
     logo := decodeAll "assets/E-bou.png" |}.

Definition sampleCell : Cell :=
  {| cellNumber := 15; mov := true; los := false;
     nonWalkableDuringFight := false; blue := true; red := false |}.

(** ** The grid compositor as the specification words it

    These definitions follow the specification's description of the grid pass
    (section 4.2), not the code: the row and the column of a cell are the
    quotient and the remainder of the Euclidean division of its number by the
    row width, and each layer is a list of at most one draw. The theorems
    below compare them with what [drawCell] does. *)

Module Spec.
Section Layers.
Variable K : Constants.t.
Variable assets : LoadedAssets.
Variable options : Options.t.
Variable cell : Cell.

Definition row : Z := cellNumber cell / Constants.MAP_WIDTH K.
Definition col : Z := cellNumber cell mod Constants.MAP_WIDTH K.

Definition screenX : Q :=
  inject_Z col * Constants.CELL_WIDTH K
  + inject_Z (row mod 2) * Constants.CELL_HALF_WIDTH K.

Definition screenY : Q := inject_Z row * Constants.CELL_HALF_HEIGHT K.

(** Layer a: the walkable-terrain tile. *)
Definition terrainTile : option Image :=
  if Z.even row then gray assets else purple assets.

Definition terrainLayer : list Event :=
  if mov cell && negb (nonWalkableDuringFight cell)
  then [DrawImage terrainTile screenX screenY
          (Constants.CELL_WIDTH K) (Constants.CELL_HEIGHT K)]
  else [].

(** An overlay: drawn at the offset position, over double the cell height. *)
Definition overlay (image : option Image) : Event :=
  DrawImage image screenX (screenY + Constants.CELL_OFFSET K)
    (Constants.CELL_WIDTH K) (Constants.CELL_DOUBLE_HEIGHT K).

(** Layer b: the blocked line of sight. *)
Definition losLayer : list Event :=
  if negb (los cell) && negb (nonWalkableDuringFight cell)
  then [overlay (high assets)]
  else [].

(** Layer c: the start zones. *)
Definition allyLayer : list Event :=
  if Options.displayStartCells options && blue cell
     && bool_decide (is_Some (ally assets))
  then [overlay (ally assets)]
  else [].

Definition enemyLayer : list Event :=
  if Options.displayStartCells options && red cell
     && bool_decide (is_Some (enemy assets))
  then [overlay (enemy assets)]
  else [].

Definition startZoneLayers : list Event := allyLayer ++ enemyLayer.

(** Item 4: the optional label with the cell number, centred in the cell. *)
Definition label : list Event :=
  [SetFillStyle "white"; SetFont "12px Arial"; SetTextAlign "center";
   SetTextBaseline "middle";
   FillText (pretty (cellNumber cell))
     (screenX + Constants.CELL_WIDTH K / 2)
     (screenY + Constants.CELL_HEIGHT K / 2)].

(** The overlays of one cell: everything drawn over the terrain tile. *)
Definition overlayLayers : list Event := losLayer ++ startZoneLayers.

(** The layers of one cell, in the order of section 4.2. *)
Definition cellLayers : list Event := terrainLayer ++ overlayLayers.

(** Whether one of the layers that raise [cellNeedToBeDraw] is drawn: the
    terrain tile or a start zone (the line of sight does not raise it). *)
Definition flagged : bool :=
  mov cell && negb (nonWalkableDuringFight cell)
  || Options.displayStartCells options && blue cell
     && bool_decide (is_Some (ally assets))
  || Options.displayStartCells options && red cell
     && bool_decide (is_Some (enemy assets)).

End Layers.

(** Section 4.3: the watermark, at most 100 by 100, ten pixels from the
    bottom-right corner. *)
Definition watermark (K : Constants.t) (asset : Image) : Event :=
  let drawWidth := Z.min 100 (width asset) in
  let drawHeight := Z.min 100 (height asset) in
  DrawImage (Some asset)
    (Constants.WIDTH K - inject_Z drawWidth - 10)
    (Constants.HEIGHT K - inject_Z drawHeight - 10)
    (inject_Z drawWidth) (inject_Z drawHeight).

(** The watermark is stamped when it is asked for and the logo is there. *)
Definition watermarkLayer (K : Constants.t) (options : Options.t)
    (assets : LoadedAssets) : list Event :=
  if Options.addWatermark options
  then match logo assets with
       | Some asset => [watermark K asset]
       | None => []
       end
  else [].

(** What creating the canvas and painting it black emits. *)
Definition blankCanvas (K : Constants.t) : list Event :=
  [CreateCanvas (Constants.WIDTH K) (Constants.HEIGHT K); GetContext "2d";
   SetFillStyle "black";
   FillRect 0 0 (Constants.WIDTH K) (Constants.HEIGHT K)].
End Spec.

(** ** Reading a trace *)

(** The paths handed to [canvas.loadImage], in the order of the calls. *)
Definition loadsOf (trace : list Event) : list string :=
  omap (λ e, match e with LoadImage path => Some path | _ => None end) trace.

(** How many times [canvas.loadImage] was called on a path. *)
Definition decodeCount (path : string) (trace : list Event) : nat :=
  length (filter (λ q, q = path) (loadsOf trace)).

(** The calls that touch a canvas: everything but the loads and the awaits. *)
Definition isCanvasCall (e : Event) : bool :=
  match e with
  | LoadImage _ | Await _ => false
  | _ => true
  end.

(** The calls that write the text label of a cell. *)
Definition isLabelCall (e : Event) : bool :=
  match e with
  | SetFillStyle _ | SetFont _ | SetTextAlign _ | SetTextBaseline _
  | FillText _ _ _ => true
  | _ => false
  end.

(** Loads made one at a time: each is issued, then awaited, before the next. *)
Definition oneAtATime (paths : list string) : list Event :=
  concat ((λ p, [LoadImage p; Await p]) <$> paths).



(** ** The position and the tile of a cell, as the loop computes them *)

(** [x] in the loop of [render]; the expression is the same in both
    versions. *)
Definition cellX (K : Constants.t) (cellId : Z) : Q :=
  inject_Z (Z.rem cellId (Constants.MAP_WIDTH K)) * Constants.CELL_WIDTH K
  + inject_Z (Z.rem (cellId / Constants.MAP_WIDTH K) 2)
    * Constants.CELL_HALF_WIDTH K.

(** [y] in the loop of [render]. *)
Definition cellY (K : Constants.t) (cellId : Z) : Q :=
  inject_Z (cellId / Constants.MAP_WIDTH K) * Constants.CELL_HALF_HEIGHT K.

(** [asset] in the terrain branch of the loop:
    [cellCoords.y % 2 === 0 ? assets.gray : assets.purple]. *)
Definition cellTile (K : Constants.t) (assets : LoadedAssets) (cellId : Z)
  : option Image :=
  if Z.rem (cellId / Constants.MAP_WIDTH K) 2 =? 0
  then gray assets else purple assets.

(** A path is available to a render when it is cached or decodes. *)
Definition available (decode : string → option Image)
    (cache : gmap string Image) (path : string) : Prop :=
  is_Some (cache !! path) ∨ is_Some (decode path).

(** Every cached image is what decoding its path gives. *)
Definition cacheAgrees (decode : string → option Image)
    (cache : gmap string Image) : Prop :=
  ∀ path image, cache !! path = Some image → decode path = Some image.

(** * Theorems *)

(** ** Running the monad *)

Section MonadFacts.
Context {S : Type}.

Lemma bind_returned {A B} (m : M S A) (f : A → M S B) s a s1 t1 :
  m s = (Returned a, s1, t1) →
  bind m f s = ((f a s1).1.1, (f a s1).1.2, t1 ++ (f a s1).2).
Proof.
  intros Hm. unfold bind. rewrite Hm.
  destruct (f a s1) as [[r s2] t2]. reflexivity.
Qed.

Lemma bind_thrown {A B} (m : M S A) (f : A → M S B) s e s1 t1 :
  m s = (Thrown e, s1, t1) → bind m f s = (Thrown e, s1, t1).
Proof. intros Hm. unfold bind. rewrite Hm. reflexivity. Qed.

(** A loop whose body only emits events emits them cell after cell. *)
Lemma forOf_emits {A} (body : A → M S unit) (events : A → list Event) l s :
  Forall (λ a, ∀ s', body a s' = (Returned tt, s', events a)) l →
  forOf l body s = (Returned tt, s, concat (events <$> l)).
Proof.
  induction 1 as [|a l Ha _ IH]; simpl.
  - reflexivity.
  - rewrite (bind_returned _ _ _ _ _ _ (Ha s)), IH. reflexivity.
Qed.

Lemma bind_emit {B} (e : Event) (k : unit → M S B) s :
  bind (emit e) k s = ((k tt s).1.1, (k tt s).1.2, e :: (k tt s).2).
Proof. unfold bind, emit. destruct (k tt s) as [[r s2] t2]. reflexivity. Qed.

End MonadFacts.

(** ** Arithmetic of the grid *)

Lemma rem2_is_even (r : Z) : (Z.rem r 2 =? 0) = Z.even r.
Proof.
  rewrite Zeven_mod.
  destruct (Z.eqb_spec (Z.rem r 2) 0) as [H|H], (Z.eqb_spec (r mod 2) 0) as [H'|H'];
    try reflexivity; exfalso.
  - apply H', Z.rem_mod_eq_0; [lia | exact H].
  - apply H, Z.rem_mod_eq_0; [lia | exact H'].
Qed.

Lemma code_col (K : Constants.t) (c : Cell) :
  0 < Constants.MAP_WIDTH K → 0 ≤ cellNumber c →
  Z.rem (cellNumber c) (Constants.MAP_WIDTH K) = Spec.col K c.
Proof. intros. unfold Spec.col. apply Z.rem_mod_nonneg; lia. Qed.

Lemma code_row_parity (K : Constants.t) (c : Cell) :
  0 < Constants.MAP_WIDTH K → 0 ≤ cellNumber c →
  Z.rem (cellNumber c / Constants.MAP_WIDTH K) 2 = Spec.row K c mod 2.
Proof.
  intros. unfold Spec.row. apply Z.rem_mod_nonneg; [|lia].
  apply Z.div_pos; lia.
Qed.

(** ** What one turn of the grid loop emits *)

Lemma IndexTs_drawCell_run K (a : LoadedAssets) o c (s : gmap string Image) :
  0 < Constants.MAP_WIDTH K → 0 ≤ cellNumber c →
  IndexTs.drawCell K a o c s
  = (Returned tt, s,
     Spec.cellLayers K a o c
     ++ (if Spec.flagged a o c then Spec.label K c else [])).
Proof.
  intros HK Hc. unfold IndexTs.drawCell.
  rewrite rem2_is_even, (code_col K c HK Hc), (code_row_parity K c HK Hc).
  unfold Spec.cellLayers, Spec.overlayLayers, Spec.flagged,
    Spec.terrainLayer, Spec.losLayer,
    Spec.startZoneLayers, Spec.allyLayer, Spec.enemyLayer, Spec.label,
    Spec.overlay, Spec.terrainTile, Spec.screenX, Spec.screenY.
  fold (Spec.row K c).
  destruct (mov c), (los c), (nonWalkableDuringFight c), (blue c), (red c),
    (Options.displayStartCells o),
    (bool_decide (is_Some (ally a))), (bool_decide (is_Some (enemy a)));
    reflexivity.
Qed.

Lemma Part000_drawCell_run K (a : LoadedAssets) o c (s : unit) :
  0 < Constants.MAP_WIDTH K → 0 ≤ cellNumber c →
  Part000.drawCell K a o c s = (Returned tt, s, Spec.cellLayers K a o c).
Proof.
  intros HK Hc. unfold Part000.drawCell.
  rewrite rem2_is_even, (code_col K c HK Hc), (code_row_parity K c HK Hc).
  unfold Spec.cellLayers, Spec.overlayLayers, Spec.terrainLayer, Spec.losLayer,
    Spec.startZoneLayers, Spec.allyLayer, Spec.enemyLayer,
    Spec.overlay, Spec.terrainTile, Spec.screenX, Spec.screenY.
  fold (Spec.row K c).
  destruct (mov c), (los c), (nonWalkableDuringFight c), (blue c), (red c),
    (Options.displayStartCells o),
    (bool_decide (is_Some (ally a))), (bool_decide (is_Some (enemy a)));
    reflexivity.
Qed.

(** ** Loading through the cache ([src/index.ts]) *)

Section CachedLoads.
Variable decode : string → option Image.
Variable options : Options.t.

Lemma loadAsset_hit la key value (s : gmap string Image) cached :
  s !! resolvePath options value = Some cached →
  IndexTs.loadAsset decode options la (key, value) s
  = (Returned (<[key := cached]> la), s, []).
Proof.
  intros Hs. unfold IndexTs.loadAsset, bind, get. cbn. rewrite Hs. reflexivity.
Qed.

Lemma loadAsset_miss la key value (s : gmap string Image) image :
  s !! resolvePath options value = None →
  decode (resolvePath options value) = Some image →
  IndexTs.loadAsset decode options la (key, value) s
  = (Returned (<[key := image]> la),
     <[resolvePath options value := image]> s,
     [LoadImage (resolvePath options value);
      Await (resolvePath options value)]).
Proof.
  intros Hs Hd.
  unfold IndexTs.loadAsset, bind, get, loadImage, await, emit, ret, modify.
  cbn. rewrite Hs. cbn. rewrite Hd. reflexivity.
Qed.

Lemma loadAsset_fail la key value (s : gmap string Image) :
  s !! resolvePath options value = None →
  decode (resolvePath options value) = None →
  IndexTs.loadAsset decode options la (key, value) s
  = (Thrown (LoadError (resolvePath options value)), s,
     [LoadImage (resolvePath options value);
      Await (resolvePath options value)]).
Proof.
  intros Hs Hd.
  unfold IndexTs.loadAsset, bind, get, loadImage, await, emit, ret, throw.
  cbn. rewrite Hs. cbn. rewrite Hd. reflexivity.
Qed.

End CachedLoads.

Lemma decodeCount_app p t1 t2 :
  decodeCount p (t1 ++ t2) = (decodeCount p t1 + decodeCount p t2)%nat.
Proof.
  unfold decodeCount, loadsOf. rewrite omap_app, filter_app, length_app.
  reflexivity.
Qed.

Lemma decodeCount_load_same p :
  decodeCount p [LoadImage p; Await p] = 1%nat.
Proof.
  unfold decodeCount, loadsOf. simpl omap.
  rewrite filter_cons_True by reflexivity. reflexivity.
Qed.

Lemma decodeCount_load_other p q :
  q ≠ p → decodeCount p [LoadImage q; Await q] = 0%nat.
Proof.
  intros Hne. unfold decodeCount, loadsOf. simpl omap.
  rewrite filter_cons_False by exact Hne. reflexivity.
Qed.

Lemma loadsOf_app t1 t2 : loadsOf (t1 ++ t2) = loadsOf t1 ++ loadsOf t2.
Proof. apply omap_app. Qed.

Lemma loadsOf_canvas t :
  Forall (λ e, isCanvasCall e = true) t → loadsOf t = [].
Proof.
  unfold loadsOf. induction 1 as [|e t He _ IH]; [reflexivity|].
  destruct e; try discriminate He; cbn; exact IH.
Qed.

Section CachedLoop.
Variable decode : string → option Image.
Variable options : Options.t.

Local Abbreviation loop l la :=
  (forOfAcc l (IndexTs.loadAsset decode options) la).

Local Abbreviation paths l := (entryPaths options l).

Lemma loop_cons_hit key value l la (s : gmap string Image) cached :
  s !! resolvePath options value = Some cached →
  loop ((key, value) :: l) la s = loop l (<[key := cached]> la) s.
Proof.
  intros Hs. simpl forOfAcc.
  rewrite (bind_returned _ _ _ _ _ _ (loadAsset_hit decode options la key value s cached Hs)).
  destruct (forOfAcc l _ _ s) as [[r s2] t2]. reflexivity.
Qed.

Lemma loop_cons_miss key value l la (s : gmap string Image) image :
  s !! resolvePath options value = None →
  decode (resolvePath options value) = Some image →
  loop ((key, value) :: l) la s
  = let rest := loop l (<[key := image]> la)
                  (<[resolvePath options value := image]> s) in
    (rest.1.1, rest.1.2,
     [LoadImage (resolvePath options value);
      Await (resolvePath options value)] ++ rest.2).
Proof.
  intros Hs Hd. simpl forOfAcc.
  rewrite (bind_returned _ _ _ _ _ _ (loadAsset_miss decode options la key value s image Hs Hd)).
  reflexivity.
Qed.

Lemma loop_cons_fail key value l la (s : gmap string Image) :
  s !! resolvePath options value = None →
  decode (resolvePath options value) = None →
  loop ((key, value) :: l) la s
  = (Thrown (LoadError (resolvePath options value)), s,
     [LoadImage (resolvePath options value);
      Await (resolvePath options value)]).
Proof.
  intros Hs Hd. simpl forOfAcc.
  apply bind_thrown, loadAsset_fail; assumption.
Qed.

(** A cached path stays cached, with the same image, and is not decoded. *)
Lemma loop_cached l : ∀ la (s : gmap string Image) p image,
  s !! p = Some image →
  stateOf (loop l la) s !! p = Some image
  ∧ decodeCount p (traceOf (loop l la) s) = 0%nat.
Proof.
  unfold stateOf, traceOf.
  induction l as [|[key value] l IH]; intros la s p image Hp.
  - split; [exact Hp | reflexivity].
  - destruct (s !! resolvePath options value) as [cached|] eqn:Hs.
    + rewrite (loop_cons_hit _ _ _ _ _ _ Hs). apply IH, Hp.
    + assert (resolvePath options value ≠ p) as Hne by congruence.
      destruct (decode (resolvePath options value)) as [img|] eqn:Hd.
      * rewrite (loop_cons_miss _ _ _ _ _ _ Hs Hd). cbn -[decodeCount].
        destruct (IH (<[key := img]> la)
                    (<[resolvePath options value := img]> s) p image)
          as [IH1 IH2].
        { rewrite lookup_insert_ne by exact Hne. exact Hp. }
        split; [exact IH1|].
        change (?a :: ?b :: ?t) with ([a; b] ++ t).
        rewrite decodeCount_app, decodeCount_load_other by exact Hne.
        exact IH2.
      * rewrite (loop_cons_fail _ _ _ _ _ Hs Hd). cbn -[decodeCount].
        split; [exact Hp|]. apply decodeCount_load_other, Hne.
Qed.

(** A path that is asked for and not cached is decoded exactly once by a
    loop that completes, and is cached afterwards. *)
Lemma loop_decodes_once l : ∀ la (s : gmap string Image) p la',
  s !! p = None → p ∈ paths l →
  outcomeOf (loop l la) s = Returned la' →
  decodeCount p (traceOf (loop l la) s) = 1%nat
  ∧ ∃ image, decode p = Some image
             ∧ stateOf (loop l la) s !! p = Some image.
Proof.
  unfold stateOf, traceOf, outcomeOf.
  induction l as [|[key value] l IH]; intros la s p la' Hp Hin Hret.
  - inversion Hin.
  - cbn in Hin. apply elem_of_cons in Hin.
    destruct (s !! resolvePath options value) as [cached|] eqn:Hs.
    + rewrite (loop_cons_hit _ _ _ _ _ _ Hs) in *.
      destruct Hin as [->|Hin]; [congruence|]. eapply IH; eassumption.
    + destruct (decode (resolvePath options value)) as [img|] eqn:Hd.
      * rewrite (loop_cons_miss _ _ _ _ _ _ Hs Hd) in *.
        cbn -[decodeCount] in *.
        change (?a :: ?b :: ?t) with ([a; b] ++ t).
        rewrite decodeCount_app.
        destruct (decide (resolvePath options value = p)) as [Heq|Hne].
        -- subst p.
           destruct (loop_cached l (<[key := img]> la)
                       (<[resolvePath options value := img]> s)
                       (resolvePath options value) img) as [H1 H2].
           { apply lookup_insert_eq. }
           unfold stateOf, traceOf in H1, H2.
           rewrite decodeCount_load_same, H2. split; [reflexivity|].
           exists img. split; [exact Hd | exact H1].
        -- destruct Hin as [->|Hin]; [congruence|].
           rewrite decodeCount_load_other by exact Hne.
           eapply IH; [|exact Hin|exact Hret].
           rewrite lookup_insert_ne by exact Hne. exact Hp.
      * rewrite (loop_cons_fail _ _ _ _ _ Hs Hd) in Hret. discriminate Hret.
Qed.

(** A path that the loop loads, and that decodes, is loaded exactly once and
    is cached afterwards, whether or not the loop completes. *)
Lemma loop_loaded_once l : ∀ la (s : gmap string Image) p image,
  p ∈ loadsOf (traceOf (loop l la) s) → decode p = Some image →
  decodeCount p (traceOf (loop l la) s) = 1%nat
  ∧ stateOf (loop l la) s !! p = Some image.
Proof.
  unfold stateOf, traceOf.
  induction l as [|[key value] l IH]; intros la s p image Hin Hdec.
  - inversion Hin.
  - destruct (s !! resolvePath options value) as [cached|] eqn:Hs.
    + rewrite (loop_cons_hit _ _ _ _ _ _ Hs) in *. apply IH; assumption.
    + destruct (decode (resolvePath options value)) as [img|] eqn:Hd.
      * rewrite (loop_cons_miss _ _ _ _ _ _ Hs Hd) in *.
        cbn [fst snd] in *.
        rewrite loadsOf_app in Hin. rewrite decodeCount_app.
        change (loadsOf [LoadImage (resolvePath options value);
                         Await (resolvePath options value)])
          with [resolvePath options value] in Hin.
        apply elem_of_cons in Hin.
        destruct (decide (resolvePath options value = p)) as [Heq|Hne].
        -- subst p. assert (img = image) as -> by congruence.
           destruct (loop_cached l (<[key := image]> la)
                       (<[resolvePath options value := image]> s)
                       (resolvePath options value) image) as [H1 H2].
           { apply lookup_insert_eq. }
           unfold stateOf, traceOf in H1, H2.
           rewrite decodeCount_load_same, H2. split; [reflexivity|exact H1].
        -- destruct Hin as [->|Hin]; [congruence|].
           rewrite decodeCount_load_other by exact Hne.
           apply IH; assumption.
      * rewrite (loop_cons_fail _ _ _ _ _ Hs Hd) in *. cbn [snd] in Hin.
        change (loadsOf [LoadImage (resolvePath options value);
                         Await (resolvePath options value)])
          with [resolvePath options value] in Hin.
        apply list_elem_of_singleton in Hin. congruence.
Qed.

(** A path that is asked for, is not cached and does not decode makes the
    loop throw; the error names a required path that does not decode. *)
Lemma loop_fails l : ∀ la (s : gmap string Image) p,
  s !! p = None → p ∈ paths l → decode p = None →
  ∃ q, outcomeOf (loop l la) s = Thrown (LoadError q)
       ∧ q ∈ paths l ∧ decode q = None.
Proof.
  unfold outcomeOf.
  induction l as [|[key value] l IH]; intros la s p Hp Hin Hnone.
  - inversion Hin.
  - cbn in Hin. apply elem_of_cons in Hin.
    destruct (s !! resolvePath options value) as [cached|] eqn:Hs.
    + rewrite (loop_cons_hit _ _ _ _ _ _ Hs).
      destruct Hin as [->|Hin]; [congruence|].
      destruct (IH (<[key := cached]> la) s p Hp Hin Hnone) as (q & ? & ? & ?).
      exists q. split; [assumption|]. split; [|assumption].
      cbn. apply elem_of_cons. right. assumption.
    + destruct (decode (resolvePath options value)) as [img|] eqn:Hd.
      * destruct Hin as [->|Hin]; [congruence|].
        assert (resolvePath options value ≠ p) as Hne by congruence.
        rewrite (loop_cons_miss _ _ _ _ _ _ Hs Hd). cbn.
        destruct (IH (<[key := img]> la)
                    (<[resolvePath options value := img]> s) p)
          as (q & ? & ? & ?); [|assumption..|].
        { rewrite lookup_insert_ne by exact Hne. exact Hp. }
        exists q. split; [assumption|]. split; [|assumption].
        apply elem_of_cons. right. assumption.
      * exists (resolvePath options value).
        rewrite (loop_cons_fail _ _ _ _ _ Hs Hd). cbn.
        split; [reflexivity|]. split; [|exact Hd].
        apply elem_of_cons. left. reflexivity.
Qed.

(** The loop calls nothing but [loadImage] and [await]. *)
Lemma loop_no_canvas l : ∀ la (s : gmap string Image),
  Forall (λ e, isCanvasCall e = false) (traceOf (loop l la) s).
Proof.
  unfold traceOf.
  induction l as [|[key value] l IH]; intros la s.
  - constructor.
  - destruct (s !! resolvePath options value) as [cached|] eqn:Hs.
    + rewrite (loop_cons_hit _ _ _ _ _ _ Hs). apply IH.
    + destruct (decode (resolvePath options value)) as [img|] eqn:Hd.
      * rewrite (loop_cons_miss _ _ _ _ _ _ Hs Hd). cbn.
        repeat constructor. apply IH.
      * rewrite (loop_cons_fail _ _ _ _ _ Hs Hd). cbn.
        repeat constructor.
Qed.

(** The loop leaves alone the keys it is not asked for. *)
Lemma loop_keeps l : ∀ la (s : gmap string Image) la' key,
  key ∉ l.*1 →
  outcomeOf (loop l la) s = Returned la' → la' !! key = la !! key.
Proof.
  unfold outcomeOf.
  induction l as [|[k value] l IH]; intros la s la' key Hkey Hret.
  - cbn in Hret. congruence.
  - cbn in Hkey. apply not_elem_of_cons in Hkey as [Hne Hkey].
    destruct (s !! resolvePath options value) as [cached|] eqn:Hs.
    + rewrite (loop_cons_hit _ _ _ _ _ _ Hs) in Hret.
      rewrite (IH _ _ _ _ Hkey Hret). apply lookup_insert_ne. congruence.
    + destruct (decode (resolvePath options value)) as [img|] eqn:Hd.
      * rewrite (loop_cons_miss _ _ _ _ _ _ Hs Hd) in Hret. cbn in Hret.
        rewrite (IH _ _ _ _ Hkey Hret). apply lookup_insert_ne. congruence.
      * rewrite (loop_cons_fail _ _ _ _ _ Hs Hd) in Hret. discriminate Hret.
Qed.

(** A loop that completes has filled every key it was asked for with the
    image the cache now holds for its path. *)
Lemma loop_fills l : ∀ la (s : gmap string Image) la' key value,
  NoDup l.*1 → (key, value) ∈ l →
  outcomeOf (loop l la) s = Returned la' →
  ∃ image, la' !! key = Some image
           ∧ stateOf (loop l la) s !! resolvePath options value = Some image.
Proof.
  unfold outcomeOf, stateOf.
  induction l as [|[k v] l IH]; intros la s la' key value Hnd Hin Hret.
  - inversion Hin.
  - cbn in Hnd. apply NoDup_cons in Hnd as [Hk Hnd].
    apply elem_of_cons in Hin.
    destruct (s !! resolvePath options v) as [cached|] eqn:Hs.
    + rewrite (loop_cons_hit _ _ _ _ _ _ Hs) in *.
      destruct Hin as [Heq|Hin]; [|eapply IH; eassumption].
      injection Heq as -> ->. exists cached. split.
      * rewrite (loop_keeps _ _ _ _ _ Hk Hret). apply lookup_insert_eq.
      * apply loop_cached, Hs.
    + destruct (decode (resolvePath options v)) as [img|] eqn:Hd.
      * rewrite (loop_cons_miss _ _ _ _ _ _ Hs Hd) in *. cbn in *.
        destruct Hin as [Heq|Hin]; [|eapply IH; eassumption].
        injection Heq as -> ->. exists img. split.
        -- rewrite (loop_keeps _ _ _ _ _ Hk Hret). apply lookup_insert_eq.
        -- apply loop_cached, lookup_insert_eq.
      * rewrite (loop_cons_fail _ _ _ _ _ Hs Hd) in Hret. discriminate Hret.
Qed.

End CachedLoop.

(** [loadAssets] is its loop followed by the construction of the record. *)
Lemma IndexTs_loadAssets_run decode o (s : gmap string Image) :
  IndexTs.loadAssets decode o s
  = match forOfAcc (assetEntries o) (IndexTs.loadAsset decode o) ∅ s with
    | (Returned la, s1, t1) =>
        (Returned {| high := la !! "high"; gray := la !! "gray";
                     purple := la !! "purple"; ally := la !! "ally";
                     enemy := la !! "enemy"; logo := la !! "logo" |},
         s1, t1)
    | (Thrown e, s1, t1) => (Thrown e, s1, t1)
    end.
Proof.
  unfold IndexTs.loadAssets, bind.
  destruct (forOfAcc _ _ _ s) as [[[la|e] s1] t1]; [|reflexivity].
  cbn. rewrite app_nil_r. reflexivity.
Qed.

Lemma assetEntries_NoDup o : NoDup (assetEntries o).*1.
Proof.
  destruct o as [assetPath [] []]; unfold assetEntries; cbn;
    apply NoDup_ListNoDup; repeat constructor; cbn; intuition discriminate.
Qed.


(** ** What a whole render emits *)

(** Whatever the geometry, a turn of the grid loop returns, leaves the state
    alone and emits the same canvas calls from every state. *)
Lemma IndexTs_drawCell_emits K (a : LoadedAssets) o c (s s' : gmap string Image) :
  IndexTs.drawCell K a o c s'
  = (Returned tt, s', traceOf (IndexTs.drawCell K a o c) s).
Proof.
  unfold traceOf, IndexTs.drawCell.
  destruct (mov c), (los c), (nonWalkableDuringFight c), (blue c), (red c),
    (Options.displayStartCells o),
    (bool_decide (is_Some (ally a))), (bool_decide (is_Some (enemy a)));
    reflexivity.
Qed.

Lemma Part000_drawCell_emits K (a : LoadedAssets) o c (s s' : unit) :
  Part000.drawCell K a o c s'
  = (Returned tt, s', traceOf (Part000.drawCell K a o c) s).
Proof.
  unfold traceOf, Part000.drawCell.
  destruct (mov c), (los c), (nonWalkableDuringFight c), (blue c), (red c),
    (Options.displayStartCells o),
    (bool_decide (is_Some (ally a))), (bool_decide (is_Some (enemy a)));
    reflexivity.
Qed.

Lemma IndexTs_drawCell_canvas K (a : LoadedAssets) o c (s : gmap string Image) :
  Forall (λ e, isCanvasCall e = true) (traceOf (IndexTs.drawCell K a o c) s).
Proof.
  unfold traceOf, IndexTs.drawCell.
  destruct (mov c), (los c), (nonWalkableDuringFight c), (blue c), (red c),
    (Options.displayStartCells o),
    (bool_decide (is_Some (ally a))), (bool_decide (is_Some (enemy a)));
    repeat constructor.
Qed.

Lemma addWatermark_emits K o (a : LoadedAssets) (s : gmap string Image) :
  (if Options.addWatermark o
   then match logo a with
        | Some asset => IndexTs.addWatermark K asset
        | None => ret tt
        end
   else ret tt) s
  = (Returned tt, s, Spec.watermarkLayer K o a).
Proof.
  unfold Spec.watermarkLayer.
  destruct (Options.addWatermark o); [|reflexivity].
  destruct (logo a); reflexivity.
Qed.

(** The canvas calls of a render whose assets are [a], from the state [s]. *)
Lemma IndexTs_render_run K decode m o (s : gmap string Image) :
  IndexTs.render K decode m o s
  = match IndexTs.loadAssets decode o s with
    | (Returned a, s1, t1) =>
        (Returned EncodedCanvas, s1,
         t1 ++ Spec.blankCanvas K
            ++ concat ((λ c, traceOf (IndexTs.drawCell K a o c) s1)
                         <$> IndexTs.cellsData (IndexTs.mapData m))
            ++ Spec.watermarkLayer K o a ++ [ToBuffer])
    | (Thrown e, s1, t1) => (Thrown e, s1, t1)
    end.
Proof.
  unfold IndexTs.render.
  destruct (IndexTs.loadAssets decode o s) as [[[a|e] s1] t1] eqn:Hload.
  - rewrite (bind_returned _ _ _ _ _ _ Hload). rewrite !bind_emit.
    erewrite bind_returned; cycle 1.
    { apply forOf_emits with
        (events := λ c, traceOf (IndexTs.drawCell K a o c) s1).
      apply Forall_forall. intros c _ s'. apply IndexTs_drawCell_emits. }
    erewrite bind_returned by apply addWatermark_emits.
    rewrite bind_emit. cbn. reflexivity.
  - apply bind_thrown, Hload.
Qed.

Lemma Part000_addWatermark_emits K o (a : LoadedAssets) (s : unit) :
  (if Options.addWatermark o
   then match logo a with
        | Some asset => Part000.addWatermark K asset
        | None => ret tt
        end
   else ret tt) s
  = (Returned tt, s, Spec.watermarkLayer K o a).
Proof.
  unfold Spec.watermarkLayer.
  destruct (Options.addWatermark o); [|reflexivity].
  destruct (logo a); reflexivity.
Qed.

Lemma Part000_render_run K decode m o (s : unit) :
  Part000.render K decode m o s
  = match Part000.loadAssets decode o s with
    | (Returned a, s1, t1) =>
        (Returned EncodedCanvas, s1,
         t1 ++ Spec.blankCanvas K
            ++ concat ((λ c, traceOf (Part000.drawCell K a o c) s1)
                         <$> Part000.cellsData m)
            ++ Spec.watermarkLayer K o a ++ [ToBuffer])
    | (Thrown e, s1, t1) => (Thrown e, s1, t1)
    end.
Proof.
  unfold Part000.render.
  destruct (Part000.loadAssets decode o s) as [[[a|e] s1] t1] eqn:Hload.
  - rewrite (bind_returned _ _ _ _ _ _ Hload). rewrite !bind_emit.
    erewrite bind_returned; cycle 1.
    { apply forOf_emits with
        (events := λ c, traceOf (Part000.drawCell K a o c) s1).
      apply Forall_forall. intros c _ s'. apply Part000_drawCell_emits. }
    erewrite bind_returned by apply Part000_addWatermark_emits.
    rewrite bind_emit. cbn. reflexivity.
  - apply bind_thrown, Hload.
Qed.

(** ** Loading by position (the earlier version) *)

(** After the two options are known the loads are a fixed list and the run
    of [loadAssets] only depends on which of them decode. *)
Ltac by_decodes decode :=
  repeat match goal with
         | |- context [decode ?p] =>
             let E := fresh "Hdecode" in destruct (decode p) eqn:E; cbn
         end.

(** When every required asset decodes: all loads are issued, then awaited
    in the same order, and the fields are filled by position. *)
Lemma Part000_loadAssets_ok decode o :
  Forall (λ p, is_Some (decode p)) (requiredPaths o) →
  Part000.loadAssets decode o tt
  = (Returned {| high := requiredPaths o !! 0%nat ≫= decode;
                 gray := requiredPaths o !! 1%nat ≫= decode;
                 purple := requiredPaths o !! 2%nat ≫= decode;
                 ally := requiredPaths o !! 3%nat ≫= decode;
                 enemy := requiredPaths o !! 4%nat ≫= decode;
                 logo := requiredPaths o !! 5%nat ≫= decode |},
     tt,
     (LoadImage <$> requiredPaths o) ++ (Await <$> requiredPaths o)).
Proof.
  destruct o as [assetPath [] []]; intros Hall;
    unfold requiredPaths, assetEntries, entryPaths in *; cbn in Hall;
    repeat (apply Forall_cons in Hall; destruct Hall as [[? ?] Hall]);
    unfold Part000.loadAssets; cbn;
    repeat match goal with H : decode _ = Some _ |- _ => rewrite H; clear H end;
    reflexivity.
Qed.

(** When a required asset does not decode: all loads are still issued, the
    promises are awaited in order up to the first one that rejects, and its
    error is thrown. *)
Lemma Part000_loadAssets_fail decode o p :
  p ∈ requiredPaths o → decode p = None →
  ∃ (n : nat) (q : string),
    Part000.loadAssets decode o tt
    = (Thrown (LoadError q), tt,
       (LoadImage <$> requiredPaths o)
       ++ (Await <$> take (S n) (requiredPaths o)))
    ∧ requiredPaths o !! n = Some q ∧ decode q = None.
Proof.
  intros Hin Hnone.
  destruct o as [assetPath [] []];
    unfold requiredPaths, assetEntries, entryPaths, Part000.loadAssets in *;
    cbn in *; by_decodes decode;
    first
      [ solve [ exfalso;
                repeat (apply elem_of_cons in Hin; destruct Hin as [->|Hin];
                        [congruence|]);
                inversion Hin ]
      | exists 0%nat; eexists; split; [reflexivity | split; [reflexivity | assumption]]
      | exists 1%nat; eexists; split; [reflexivity | split; [reflexivity | assumption]]
      | exists 2%nat; eexists; split; [reflexivity | split; [reflexivity | assumption]]
      | exists 3%nat; eexists; split; [reflexivity | split; [reflexivity | assumption]]
      | exists 4%nat; eexists; split; [reflexivity | split; [reflexivity | assumption]]
      | exists 5%nat; eexists; split; [reflexivity | split; [reflexivity | assumption]] ].
Qed.

(** ** The grid compositor: claims about one cell *)

(** C5. For a cell with [mov = true] and [nonWalkableDuringFight = false],
    both versions first draw the terrain tile at the cell's screen position,
    at full cell size: the [gray] asset when [floor(cellNumber / MAP_WIDTH)]
    is even and the [purple] asset otherwise; what follows is the overlays
    (and, in [src/index.ts], the label). For a cell with [mov = false], and
    for a cell with [nonWalkableDuringFight = true], no terrain tile is drawn:
    the cell emits its overlays only. *)
Theorem terrain_tile_follows_row_parity
    (K : Constants.t) (a : LoadedAssets) (o : Options.t)
    (n : Z) (mv ls nw bl rd : bool) (s : gmap string Image) :
  0 < Constants.MAP_WIDTH K → 0 ≤ n →
  let tile :=
    if Z.even (n / Constants.MAP_WIDTH K) then gray a else purple a in
  let walkable := mkCell n true ls false bl rd in
  let blocked := mkCell n false ls nw bl rd in
  let fightOnly := mkCell n mv ls true bl rd in
  let tileDraw :=
    DrawImage tile (Spec.screenX K walkable) (Spec.screenY K walkable)
      (Constants.CELL_WIDTH K) (Constants.CELL_HEIGHT K) in
  let labelIfFlagged c :=
    if Spec.flagged a o c then Spec.label K c else [] in
  (traceOf (IndexTs.drawCell K a o walkable) s
   = tileDraw :: Spec.overlayLayers K a o walkable ++ Spec.label K walkable
   ∧ traceOf (Part000.drawCell K a o walkable) tt
     = tileDraw :: Spec.overlayLayers K a o walkable)
  ∧ (traceOf (IndexTs.drawCell K a o blocked) s
     = Spec.overlayLayers K a o blocked ++ labelIfFlagged blocked
     ∧ traceOf (Part000.drawCell K a o blocked) tt
       = Spec.overlayLayers K a o blocked)
  ∧ (traceOf (IndexTs.drawCell K a o fightOnly) s
     = Spec.overlayLayers K a o fightOnly ++ labelIfFlagged fightOnly
     ∧ traceOf (Part000.drawCell K a o fightOnly) tt
       = Spec.overlayLayers K a o fightOnly).
Proof.
  intros HK Hn. unfold traceOf. cbv zeta.
  rewrite !IndexTs_drawCell_run, !Part000_drawCell_run by assumption.
  unfold Spec.cellLayers, Spec.terrainLayer, Spec.terrainTile, Spec.row,
    Spec.flagged.
  cbn. rewrite andb_false_r. repeat split; reflexivity.
Qed.

Lemma terrain_tile_follows_row_parity_witness :
  0 < Constants.MAP_WIDTH sampleConstants ∧ 0 ≤ 15
  ∧ traceOf (Part000.drawCell sampleConstants sampleAssets sampleOptions
               (mkCell 15 true true false false false)) tt
    = [DrawImage (purple sampleAssets) 129 (43 # 2) 86 43].
Proof.
  split; [reflexivity|]. split; [discriminate|].
  pose proof (terrain_tile_follows_row_parity sampleConstants sampleAssets
                sampleOptions 15 false true false false false ∅
                eq_refl ltac:(discriminate)) as H.
  exact (proj2 (proj1 H)).
Defined.

(** C6. For a cell, with [row = floor(cellNumber / MAP_WIDTH)] and
    [col = cellNumber mod MAP_WIDTH], every layer either version draws is at
    [screenX = col * CELL_WIDTH + (row mod 2) * CELL_HALF_WIDTH]; the terrain
    tile is at [screenY = row * CELL_HALF_HEIGHT], the line-of-sight and
    start-zone overlays at [screenY + CELL_OFFSET]. The draws of the earlier
    version are exactly these layers; [src/index.ts] emits the same layers,
    followed by the label when the cell is flagged. *)
Theorem layers_at_screen_position
    (K : Constants.t) (a : LoadedAssets) (o : Options.t) (c : Cell)
    (s : gmap string Image) :
  0 < Constants.MAP_WIDTH K → 0 ≤ cellNumber c →
  let row := cellNumber c / Constants.MAP_WIDTH K in
  let col := cellNumber c mod Constants.MAP_WIDTH K in
  let screenX :=
    (inject_Z col * Constants.CELL_WIDTH K
     + inject_Z (row mod 2) * Constants.CELL_HALF_WIDTH K)%Q in
  let screenY := (inject_Z row * Constants.CELL_HALF_HEIGHT K)%Q in
  let tile :=
    DrawImage (if Z.even row then gray a else purple a) screenX screenY
      (Constants.CELL_WIDTH K) (Constants.CELL_HEIGHT K) in
  let overlay image :=
    DrawImage image screenX (screenY + Constants.CELL_OFFSET K)%Q
      (Constants.CELL_WIDTH K) (Constants.CELL_DOUBLE_HEIGHT K) in
  let layers :=
    (if mov c && negb (nonWalkableDuringFight c) then [tile] else [])
    ++ (if negb (los c) && negb (nonWalkableDuringFight c)
        then [overlay (high a)] else [])
    ++ (if Options.displayStartCells o && blue c
           && bool_decide (is_Some (ally a))
        then [overlay (ally a)] else [])
    ++ (if Options.displayStartCells o && red c
           && bool_decide (is_Some (enemy a))
        then [overlay (enemy a)] else []) in
  traceOf (Part000.drawCell K a o c) tt = layers
  ∧ traceOf (IndexTs.drawCell K a o c) s
    = layers
      ++ (if Spec.flagged a o c
          then [SetFillStyle "white"; SetFont "12px Arial";
                SetTextAlign "center"; SetTextBaseline "middle";
                FillText (pretty (cellNumber c))
                  (screenX + Constants.CELL_WIDTH K / 2)%Q
                  (screenY + Constants.CELL_HEIGHT K / 2)%Q]
          else []).
Proof.
  intros HK Hc. unfold traceOf. cbv zeta.
  rewrite IndexTs_drawCell_run, Part000_drawCell_run by assumption.
  split; reflexivity.
Qed.

Lemma layers_at_screen_position_witness :
  traceOf (Part000.drawCell sampleConstants sampleAssets sampleOptions
             sampleCell) tt
  = [DrawImage (purple sampleAssets) 129 (43 # 2) 86 43;
     DrawImage (high sampleAssets) 129 (43 # 2) 86 86].
Proof.
  pose proof (layers_at_screen_position sampleConstants sampleAssets
                sampleOptions sampleCell ∅
                eq_refl ltac:(discriminate)) as H.
  exact (proj1 H).
Defined.

(** C7. A cell with [nonWalkableDuringFight = true] draws neither the
    terrain tile nor the line-of-sight overlay, whatever [mov] and [los] are:
    it emits its start-zone overlays only (and, in [src/index.ts], the label
    they flag). A cell with [los = false] and
    [nonWalkableDuringFight = false] draws the line-of-sight overlay at
    [(screenX, screenY + CELL_OFFSET)], one cell wide and
    [CELL_DOUBLE_HEIGHT] high, whatever [mov] is: after the terrain layer and
    before the start zones. *)
Theorem fight_flag_hides_terrain_and_sight
    (K : Constants.t) (a : LoadedAssets) (o : Options.t)
    (n : Z) (mv ls bl rd : bool) (s : gmap string Image) :
  0 < Constants.MAP_WIDTH K → 0 ≤ n →
  let fightOnly := mkCell n mv ls true bl rd in
  let unseen := mkCell n mv false false bl rd in
  let sightDraw :=
    DrawImage (high a) (Spec.screenX K unseen)
      (Spec.screenY K unseen + Constants.CELL_OFFSET K)%Q
      (Constants.CELL_WIDTH K) (Constants.CELL_DOUBLE_HEIGHT K) in
  let labelIfFlagged c :=
    if Spec.flagged a o c then Spec.label K c else [] in
  (traceOf (IndexTs.drawCell K a o fightOnly) s
   = Spec.startZoneLayers K a o fightOnly ++ labelIfFlagged fightOnly
   ∧ traceOf (Part000.drawCell K a o fightOnly) tt
     = Spec.startZoneLayers K a o fightOnly)
  ∧ (traceOf (IndexTs.drawCell K a o unseen) s
     = Spec.terrainLayer K a unseen
       ++ sightDraw :: Spec.startZoneLayers K a o unseen
       ++ labelIfFlagged unseen
     ∧ traceOf (Part000.drawCell K a o unseen) tt
       = Spec.terrainLayer K a unseen
         ++ sightDraw :: Spec.startZoneLayers K a o unseen).
Proof.
  intros HK Hn. unfold traceOf. cbv zeta.
  rewrite !IndexTs_drawCell_run, !Part000_drawCell_run by assumption.
  unfold Spec.cellLayers, Spec.overlayLayers, Spec.terrainLayer,
    Spec.losLayer, Spec.overlay.
  cbn. rewrite !andb_false_r. cbn.
  repeat split; try reflexivity; rewrite <- app_assoc; reflexivity.
Qed.

Lemma fight_flag_hides_terrain_and_sight_witness :
  traceOf (IndexTs.drawCell sampleConstants sampleAssets sampleOptions
             (mkCell 15 true false true true true)) ∅
  = []
  ∧ traceOf (Part000.drawCell sampleConstants sampleAssets sampleOptions
               (mkCell 15 false false false true true)) tt
    = [DrawImage (high sampleAssets) 129 (43 # 2) 86 86].
Proof.
  pose proof (fight_flag_hides_terrain_and_sight sampleConstants sampleAssets
                sampleOptions 15 true false true true ∅
                eq_refl ltac:(discriminate)) as H1.
  pose proof (fight_flag_hides_terrain_and_sight sampleConstants sampleAssets
                sampleOptions 15 false false true true ∅
                eq_refl ltac:(discriminate)) as H2.
  split; [exact (proj1 (proj1 H1)) | exact (proj2 (proj2 H2))].
Defined.

(** ** The two grid passes side by side *)

Lemma IndexTs_drawCell_adds_label K (a : LoadedAssets) o c
    (s : gmap string Image) :
  ∃ x y : Q,
    traceOf (IndexTs.drawCell K a o c) s
    = traceOf (Part000.drawCell K a o c) tt
      ++ (if Spec.flagged a o c
          then [SetFillStyle "white"; SetFont "12px Arial";
                SetTextAlign "center"; SetTextBaseline "middle";
                FillText (pretty (cellNumber c)) x y]
          else []).
Proof.
  exists (inject_Z (Z.rem (cellNumber c) (Constants.MAP_WIDTH K))
            * Constants.CELL_WIDTH K
          + inject_Z (Z.rem (cellNumber c / Constants.MAP_WIDTH K) 2)
            * Constants.CELL_HALF_WIDTH K
          + Constants.CELL_WIDTH K / 2)%Q,
         (inject_Z (cellNumber c / Constants.MAP_WIDTH K)
            * Constants.CELL_HALF_HEIGHT K
          + Constants.CELL_HEIGHT K / 2)%Q.
  unfold traceOf, IndexTs.drawCell, Part000.drawCell, Spec.flagged.
  destruct (mov c), (los c), (nonWalkableDuringFight c), (blue c), (red c),
    (Options.displayStartCells o),
    (bool_decide (is_Some (ally a))), (bool_decide (is_Some (enemy a)));
    reflexivity.
Qed.

Lemma IndexTs_drawCell_without_label K (a : LoadedAssets) o c
    (s : gmap string Image) :
  filter (λ e, isLabelCall e = false) (traceOf (IndexTs.drawCell K a o c) s)
  = traceOf (Part000.drawCell K a o c) tt.
Proof.
  unfold traceOf, IndexTs.drawCell, Part000.drawCell.
  destruct (mov c), (los c), (nonWalkableDuringFight c), (blue c), (red c),
    (Options.displayStartCells o),
    (bool_decide (is_Some (ally a))), (bool_decide (is_Some (enemy a)));
    reflexivity.
Qed.

Lemma filter_concat_fmap {A B} (P : B → Prop) `{∀ x, Decision (P x)}
    (f g : A → list B) (l : list A) :
  (∀ x, filter P (f x) = g x) →
  filter P (concat (f <$> l)) = concat (g <$> l).
Proof.
  intros Hfg. induction l as [|x l IH]; [reflexivity|].
  cbn. rewrite filter_app, Hfg, IH. reflexivity.
Qed.

(** C9. On the same cells, options and assets, the grid pass of
    [src/index.ts] and the grid pass of the earlier version emit the same
    calls in the same order once the label calls are taken out; each pass is
    the concatenation of what it emits cell by cell; and for each cell
    [src/index.ts] emits what the earlier version emits, followed by the five
    calls that write the cell number when a layer raised
    [cellNeedToBeDraw], and by nothing otherwise. *)
Theorem grid_passes_agree_up_to_label
    (K : Constants.t) (a : LoadedAssets) (o : Options.t) (cells : list Cell)
    (s : gmap string Image) :
  filter (λ e, isLabelCall e = false)
    (traceOf (forOf cells (IndexTs.drawCell K a o)) s)
  = traceOf (forOf cells (Part000.drawCell K a o)) tt
  ∧ traceOf (forOf cells (IndexTs.drawCell K a o)) s
    = concat ((λ c, traceOf (IndexTs.drawCell K a o c) s) <$> cells)
  ∧ traceOf (forOf cells (Part000.drawCell K a o)) tt
    = concat ((λ c, traceOf (Part000.drawCell K a o c) tt) <$> cells)
  ∧ Forall
      (λ c, ∃ x y : Q,
         traceOf (IndexTs.drawCell K a o c) s
         = traceOf (Part000.drawCell K a o c) tt
           ++ (if mov c && negb (nonWalkableDuringFight c)
                  || Options.displayStartCells o && blue c
                     && bool_decide (is_Some (ally a))
                  || Options.displayStartCells o && red c
                     && bool_decide (is_Some (enemy a))
               then [SetFillStyle "white"; SetFont "12px Arial";
                     SetTextAlign "center"; SetTextBaseline "middle";
                     FillText (pretty (cellNumber c)) x y]
               else []))
      cells.
Proof.
  assert (traceOf (forOf cells (IndexTs.drawCell K a o)) s
          = concat ((λ c, traceOf (IndexTs.drawCell K a o c) s) <$> cells))
    as HI.
  { unfold traceOf at 1. erewrite forOf_emits; [reflexivity|].
    apply Forall_forall. intros c _ s'. apply IndexTs_drawCell_emits. }
  assert (traceOf (forOf cells (Part000.drawCell K a o)) tt
          = concat ((λ c, traceOf (Part000.drawCell K a o c) tt) <$> cells))
    as HP.
  { unfold traceOf at 1. erewrite forOf_emits; [reflexivity|].
    apply Forall_forall. intros c _ s'. apply Part000_drawCell_emits. }
  split; [|split; [exact HI|split; [exact HP|]]].
  - rewrite HI, HP. apply filter_concat_fmap.
    intros c. apply IndexTs_drawCell_without_label.
  - apply Forall_forall. intros c _. apply IndexTs_drawCell_adds_label.
Qed.

(** ** The order of the draws of one render *)

Lemma concat_fmap_ext {A B} (f g : A → list B) (l : list A) :
  Forall (λ x, f x = g x) l → concat (f <$> l) = concat (g <$> l).
Proof. intros H. f_equal. apply Forall_fmap_ext, H. Qed.

(** C8. A render that gets its assets emits, after the loads: the creation
    and the black fill of the canvas; then, cell after cell in the order of
    [cellsData], the terrain layer of the cell (at most the tile draw)
    followed by its overlays (and, in [src/index.ts], by its label); then
    the watermark layer (at most the logo draw); then [toBuffer]. So within
    a cell the tile precedes every overlay, and the watermark comes after
    every draw of the grid. A render that does not get its assets emits the
    loads only. *)
Theorem tile_first_watermark_last
    (K : Constants.t) (decode : string → option Image) (o : Options.t)
    (cells : list Cell) (s : gmap string Image) :
  0 < Constants.MAP_WIDTH K →
  Forall (λ c, 0 ≤ cellNumber c) cells →
  IndexTs.render K decode (IndexTs.mkMap (IndexTs.mkMapData cells)) o s
  = match IndexTs.loadAssets decode o s with
    | (Returned a, s1, loads) =>
        (Returned EncodedCanvas, s1,
         loads ++ Spec.blankCanvas K
         ++ concat ((λ c, Spec.terrainLayer K a c
                          ++ Spec.overlayLayers K a o c
                          ++ (if Spec.flagged a o c then Spec.label K c
                              else []))
                      <$> cells)
         ++ Spec.watermarkLayer K o a ++ [ToBuffer])
    | (Thrown e, s1, loads) => (Thrown e, s1, loads)
    end
  ∧ Part000.render K decode (Part000.mkMap cells) o tt
    = match Part000.loadAssets decode o tt with
      | (Returned a, s1, loads) =>
          (Returned EncodedCanvas, s1,
           loads ++ Spec.blankCanvas K
           ++ concat ((λ c, Spec.terrainLayer K a c
                            ++ Spec.overlayLayers K a o c)
                        <$> cells)
           ++ Spec.watermarkLayer K o a ++ [ToBuffer])
      | (Thrown e, s1, loads) => (Thrown e, s1, loads)
      end.
Proof.
  intros HK Hcells. split.
  - rewrite IndexTs_render_run.
    destruct (IndexTs.loadAssets decode o s) as [[[a|e] s1] loads];
      [|reflexivity].
    cbn [IndexTs.cellsData IndexTs.mapData]. do 4 f_equal.
    apply concat_fmap_ext. eapply Forall_impl; [exact Hcells|].
    intros c Hc. cbn beta. unfold traceOf.
    rewrite IndexTs_drawCell_run by assumption. cbn.
    unfold Spec.cellLayers. rewrite <- app_assoc. reflexivity.
  - rewrite Part000_render_run.
    destruct (Part000.loadAssets decode o tt) as [[[a|e] s1] loads];
      [|reflexivity].
    cbn [Part000.cellsData]. do 4 f_equal.
    apply concat_fmap_ext. eapply Forall_impl; [exact Hcells|].
    intros c Hc. cbn beta. unfold traceOf.
    rewrite Part000_drawCell_run by assumption. reflexivity.
Qed.

Lemma tile_first_watermark_last_witness :
  IndexTs.render sampleConstants decodeAll
    (IndexTs.mkMap (IndexTs.mkMapData [sampleCell])) sampleOptions ∅
  = (Returned EncodedCanvas,
     stateOf (IndexTs.loadAssets decodeAll sampleOptions) ∅,
     [LoadImage "assets/areaUnitHigh.png"; Await "assets/areaUnitHigh.png";
      LoadImage "assets/grayCell.png"; Await "assets/grayCell.png";
      LoadImage "assets/purpleCell.png"; Await "assets/purpleCell.png";
      LoadImage "assets/E-bou.png"; Await "assets/E-bou.png";
      CreateCanvas 1247 881; GetContext "2d"; SetFillStyle "black";
      FillRect 0 0 1247 881;
      DrawImage (decodeAll "assets/purpleCell.png") 129 (43 # 2) 86 43;
      DrawImage (decodeAll "assets/areaUnitHigh.png") 129 (43 # 2) 86 86;
      SetFillStyle "white"; SetFont "12px Arial"; SetTextAlign "center";
      SetTextBaseline "middle"; FillText "15" (344 # 2) (172 # 4);
      DrawImage (decodeAll "assets/E-bou.png") 1137 807 100 64;
      ToBuffer]).
Proof.
  pose proof (tile_first_watermark_last sampleConstants decodeAll
                sampleOptions [sampleCell] ∅ eq_refl
                ltac:(constructor; [discriminate | constructor])) as H.
  exact (proj1 H).
Defined.

(** ** Failing loads *)

(** When the loop of [loadAssets] throws, [render] stops there. *)
Lemma IndexTs_render_throws K decode m o (s : gmap string Image) e s1 t1 :
  forOfAcc (assetEntries o) (IndexTs.loadAsset decode o) ∅ s
  = (Thrown e, s1, t1) →
  IndexTs.render K decode m o s = (Thrown e, s1, t1).
Proof.
  intros Hloop. rewrite IndexTs_render_run, IndexTs_loadAssets_run, Hloop.
  reflexivity.
Qed.

(** C3. When a required asset is not cached and does not decode, [render]
    of [src/index.ts] throws the load error of a required path that does not
    decode, and not one call of its trace touches a canvas: none is created,
    nothing is drawn, [toBuffer] is not reached. So does [render] of the
    earlier version when a required asset does not decode. Neither returns
    a buffer. *)
Theorem failed_load_aborts_render
    (K : Constants.t) (decode : string → option Image) (o : Options.t)
    (cells : list Cell) (s : gmap string Image) (p : string) :
  p ∈ requiredPaths o → s !! p = None → decode p = None →
  let renderTs :=
    IndexTs.render K decode (IndexTs.mkMap (IndexTs.mkMapData cells)) o in
  let render000 := Part000.render K decode (Part000.mkMap cells) o in
  (∃ q, outcomeOf renderTs s = Thrown (LoadError q)
        ∧ q ∈ requiredPaths o ∧ decode q = None)
  ∧ Forall (λ e, isCanvasCall e = false) (traceOf renderTs s)
  ∧ (∃ q, outcomeOf render000 tt = Thrown (LoadError q)
          ∧ q ∈ requiredPaths o ∧ decode q = None)
  ∧ Forall (λ e, isCanvasCall e = false) (traceOf render000 tt).
Proof.
  intros Hin Hs Hnone. cbv zeta.
  destruct (loop_fails decode o (assetEntries o) ∅ s p Hs Hin Hnone)
    as (q & Hq & Hqin & Hqnone).
  pose proof (loop_no_canvas decode o (assetEntries o) ∅ s) as Hloads.
  unfold outcomeOf, traceOf in *.
  destruct (forOfAcc _ _ _ s) as [[[la|e] s1] t1] eqn:Hloop;
    [discriminate Hq|].
  rewrite (IndexTs_render_throws K decode _ o s e s1 t1 Hloop).
  cbn in Hq, Hloads. injection Hq as ->.
  split; [exists q; auto|]. split; [exact Hloads|].
  destruct (Part000_loadAssets_fail decode o p Hin Hnone)
    as (n & q' & Hrun & Hlook & Hq').
  rewrite Part000_render_run, Hrun. cbn.
  split.
  - exists q'. split; [reflexivity|]. split; [|exact Hq'].
    eapply list_elem_of_lookup_2, Hlook.
  - apply Forall_app. split; apply Forall_fmap, Forall_forall; reflexivity.
Qed.

Lemma failed_load_aborts_render_witness :
  IndexTs.render sampleConstants (decodeAllBut "assets/grayCell.png")
    (IndexTs.mkMap (IndexTs.mkMapData [sampleCell])) sampleOptions ∅
  = (Thrown (LoadError "assets/grayCell.png"),
     {[ "assets/areaUnitHigh.png" :=
          mkImage "assets/areaUnitHigh.png" 256 64 ]},
     [LoadImage "assets/areaUnitHigh.png"; Await "assets/areaUnitHigh.png";
      LoadImage "assets/grayCell.png"; Await "assets/grayCell.png"])
  ∧ Forall (λ e, isCanvasCall e = false)
      (traceOf
         (Part000.render sampleConstants (decodeAllBut "assets/grayCell.png")
            (Part000.mkMap [sampleCell]) sampleOptions) tt).
Proof.
  split; [vm_compute; reflexivity|].
  refine (proj2 (proj2 (proj2
    (failed_load_aborts_render sampleConstants
       (decodeAllBut "assets/grayCell.png") sampleOptions [sampleCell] ∅
       "assets/grayCell.png" _ eq_refl eq_refl)))).
  vm_compute. apply list_elem_of_further, list_elem_of_here.
Defined.

(** ** The cache across two renders *)

Lemma canvas_part_is_canvas K (a : LoadedAssets) o cells
    (s : gmap string Image) :
  Forall (λ e, isCanvasCall e = true)
    (Spec.blankCanvas K
     ++ concat ((λ c, traceOf (IndexTs.drawCell K a o c) s) <$> cells)
     ++ Spec.watermarkLayer K o a ++ [ToBuffer]).
Proof.
  apply Forall_app. split; [repeat constructor|].
  apply Forall_app. split.
  - apply Forall_concat, Forall_fmap, Forall_forall. intros c _.
    apply IndexTs_drawCell_canvas.
  - apply Forall_app. split; [|repeat constructor].
    unfold Spec.watermarkLayer.
    destruct (Options.addWatermark o); [|constructor].
    destruct (logo a); repeat constructor.
Qed.

(** A render loads what the loop of its [loadAssets] loads, and leaves the
    cache as that loop leaves it. *)
Lemma IndexTs_render_loads K decode m o (s : gmap string Image) :
  loadsOf (traceOf (IndexTs.render K decode m o) s)
  = loadsOf
      (traceOf (forOfAcc (assetEntries o) (IndexTs.loadAsset decode o) ∅) s)
  ∧ stateOf (IndexTs.render K decode m o) s
    = stateOf (forOfAcc (assetEntries o) (IndexTs.loadAsset decode o) ∅) s.
Proof.
  unfold traceOf, stateOf. rewrite IndexTs_render_run, IndexTs_loadAssets_run.
  destruct (forOfAcc _ _ _ s) as [[[la|e] s1] t1]; [|split; reflexivity].
  cbn [fst snd]. split; [|reflexivity].
  rewrite loadsOf_app, (loadsOf_canvas (_ ++ _)).
  - apply app_nil_r.
  - apply canvas_part_is_canvas.
Qed.

Lemma IndexTs_render_returns K decode m o (s : gmap string Image) b :
  outcomeOf (IndexTs.render K decode m o) s = Returned b →
  ∃ la, outcomeOf
          (forOfAcc (assetEntries o) (IndexTs.loadAsset decode o) ∅) s
        = Returned la.
Proof.
  unfold outcomeOf.
  destruct (forOfAcc _ _ _ s) as [[[la|e] s1] t1] eqn:Hloop.
  - intros _. exists la. reflexivity.
  - rewrite (IndexTs_render_throws K decode m o s e s1 t1 Hloop).
    discriminate.
Qed.

(** A render that completes, from a cache that does not hold a path it
    requires, has called [loadImage] on that path, and the path decodes. *)
Lemma completed_render_loads_uncached K decode m o (s : gmap string Image)
    p b :
  p ∈ requiredPaths o → s !! p = None →
  outcomeOf (IndexTs.render K decode m o) s = Returned b →
  p ∈ loadsOf (traceOf (IndexTs.render K decode m o) s)
  ∧ is_Some (decode p).
Proof.
  intros Hin Hs Hret.
  destruct (IndexTs_render_returns _ _ _ _ _ _ Hret) as [la Hla].
  destruct (loop_decodes_once decode o (assetEntries o) ∅ s p la Hs Hin Hla)
    as (Hcount & image & Hdec & _).
  split; [|exists image; exact Hdec].
  rewrite (proj1 (IndexTs_render_loads K decode m o s)).
  unfold decodeCount in Hcount.
  destruct (filter _ _) as [|q qs] eqn:Hf; [discriminate Hcount|].
  assert (q ∈ filter (λ q, q = p) (loadsOf
            (traceOf (forOfAcc (assetEntries o)
                        (IndexTs.loadAsset decode o) ∅) s))) as Hq.
  { rewrite Hf. apply list_elem_of_here. }
  apply list_elem_of_filter in Hq as [-> Hq]. exact Hq.
Qed.

Lemma fieldOf_loaded (la : gmap string Image) o key value :
  (key, value) ∈ assetEntries o →
  fieldOf key {| high := la !! "high"; gray := la !! "gray";
                 purple := la !! "purple"; ally := la !! "ally";
                 enemy := la !! "enemy"; logo := la !! "logo" |}
  = la !! key.
Proof.
  destruct o as [assetPath [] []]; unfold assetEntries; cbn; intros Hin;
    repeat (apply elem_of_cons in Hin;
            destruct Hin as [Heq|Hin]; [injection Heq as -> ->; reflexivity|]);
    inversion Hin.
Qed.

(** C4, as stated, fails: a pair of renders requiring the same path does not
    always decode it exactly once. Two renders of [src/index.ts] run one
    after the other with the same options both require
    [assets/grayCell.png]; when that file does not decode, [loadImage] is
    called on it twice, once by each render, since a failed decode stores
    nothing; and when the cache holds it before the first render, it is
    called on it zero times. *)
Lemma same_path_not_always_decoded_once :
  let p := "assets/grayCell.png" in
  let map := IndexTs.mkMap (IndexTs.mkMapData [sampleCell]) in
  let missing :=
    IndexTs.render sampleConstants (decodeAllBut p) map sampleOptions in
  let present := IndexTs.render sampleConstants decodeAll map sampleOptions in
  let warm : gmap string Image := {[ p := mkImage p 256 64 ]} in
  p ∈ requiredPaths sampleOptions
  ∧ decodeCount p (traceOf missing ∅ ++ traceOf missing (stateOf missing ∅))
    = 2%nat
  ∧ decodeCount p (traceOf present warm ++ traceOf present (stateOf present warm))
    = 0%nat.
Proof.
  cbv zeta. split.
  - vm_compute. apply list_elem_of_further, list_elem_of_here.
  - split; vm_compute; reflexivity.
Qed.

(** C4, amended. Two renders of [src/index.ts], one after the other, that
    both require the resolved path [p], where the first one gets to load [p]
    (so [p] was not cached) and [p] decodes: across the two,
    [canvas.loadImage] is called on [p] exactly once. The call is made by
    the first render, which stores the decoded image in [assetsCache] under
    [p]; the second render makes no call on [p], the cache still holds the
    image after it, and the asset it loads for a key that resolves to [p] is
    that cached image. *)
Theorem one_decode_across_two_renders
    (K : Constants.t) (decode : string → option Image)
    (m1 m2 : IndexTs.Map) (o1 o2 : Options.t)
    (s0 : gmap string Image) (p : string) (image : Image) :
  p ∈ requiredPaths o1 → p ∈ requiredPaths o2 →
  p ∈ loadsOf (traceOf (IndexTs.render K decode m1 o1) s0) →
  decode p = Some image →
  let t1 := traceOf (IndexTs.render K decode m1 o1) s0 in
  let s1 := stateOf (IndexTs.render K decode m1 o1) s0 in
  let t2 := traceOf (IndexTs.render K decode m2 o2) s1 in
  let s2 := stateOf (IndexTs.render K decode m2 o2) s1 in
  decodeCount p (t1 ++ t2) = 1%nat
  ∧ decodeCount p t1 = 1%nat
  ∧ decodeCount p t2 = 0%nat
  ∧ s1 !! p = Some image
  ∧ s2 !! p = Some image
  ∧ ∀ key value a2,
      (key, value) ∈ assetEntries o2 → resolvePath o2 value = p →
      outcomeOf (IndexTs.loadAssets decode o2) s1 = Returned a2 →
      fieldOf key a2 = Some image.
Proof.
  intros _ Hin2 Hload Hdec. cbv zeta.
  destruct (IndexTs_render_loads K decode m1 o1 s0) as [Ht1 Hst1].
  rewrite Ht1 in Hload.
  destruct (loop_loaded_once decode o1 (assetEntries o1) ∅ s0 p image
              Hload Hdec) as [Hcount1 Hs1].
  rewrite Hst1. set (s1 := stateOf (forOfAcc _ _ _) s0) in *.
  destruct (IndexTs_render_loads K decode m2 o2 s1) as [Ht2 Hst2].
  destruct (loop_cached decode o2 (assetEntries o2) ∅ s1 p image Hs1)
    as [Hs2 Hcount2].
  assert (decodeCount p (traceOf (IndexTs.render K decode m1 o1) s0) = 1%nat)
    as Hc1 by (unfold decodeCount in *; rewrite Ht1; exact Hcount1).
  assert (decodeCount p (traceOf (IndexTs.render K decode m2 o2) s1) = 0%nat)
    as Hc2 by (unfold decodeCount in *; rewrite Ht2; exact Hcount2).
  rewrite decodeCount_app, Hc1, Hc2, Hst2.
  repeat split; try reflexivity; try assumption.
  intros key value a2 Hkv Hpath Hret2.
  unfold outcomeOf in Hret2. rewrite IndexTs_loadAssets_run in Hret2.
  destruct (forOfAcc (assetEntries o2) _ ∅ s1) as [[[la2|e] sa] ta] eqn:Hrun2;
    [|discriminate Hret2].
  cbn in Hret2. injection Hret2 as <-.
  rewrite (fieldOf_loaded la2 o2 key value Hkv).
  destruct (loop_fills decode o2 (assetEntries o2) ∅ s1 la2 key value
              (assetEntries_NoDup o2) Hkv) as (image' & Hkey & Hfinal).
  { unfold outcomeOf. rewrite Hrun2. reflexivity. }
  rewrite Hpath in Hfinal. unfold stateOf in Hs2, Hfinal.
  rewrite Hs2 in Hfinal. injection Hfinal as <-. exact Hkey.
Qed.

Lemma one_decode_across_two_renders_witness :
  let render1 :=
    IndexTs.render sampleConstants decodeAll
      (IndexTs.mkMap (IndexTs.mkMapData [sampleCell])) sampleOptions in
  let render2 :=
    IndexTs.render sampleConstants decodeAll
      (IndexTs.mkMap (IndexTs.mkMapData []))
      (Options.mk "assets" true true) in
  decodeCount "assets/E-bou.png"
    (traceOf render1 ∅ ++ traceOf render2 (stateOf render1 ∅))
  = 1%nat.
Proof.
  refine (proj1
    (one_decode_across_two_renders sampleConstants decodeAll
       (IndexTs.mkMap (IndexTs.mkMapData [sampleCell]))
       (IndexTs.mkMap (IndexTs.mkMapData []))
       sampleOptions (Options.mk "assets" true true) ∅
       "assets/E-bou.png" (mkImage "assets/E-bou.png" 256 64)
       _ _ _ eq_refl)).
  - vm_compute. do 3 apply list_elem_of_further. apply list_elem_of_here.
  - vm_compute. do 5 apply list_elem_of_further. apply list_elem_of_here.
  - vm_compute. do 3 apply list_elem_of_further. apply list_elem_of_here.
Defined.

(** ** Loading by position: where the logo lands *)

(** [loadAssets] of the earlier version returns only when every required
    asset decodes. *)
Lemma Part000_loadAssets_returns decode o a :
  outcomeOf (Part000.loadAssets decode o) tt = Returned a →
  Forall (λ p, is_Some (decode p)) (requiredPaths o).
Proof.
  intros Hret. apply Forall_forall. intros p Hin.
  destruct (decode p) as [image|] eqn:Hp; [eexists; reflexivity|].
  destruct (Part000_loadAssets_fail decode o p Hin Hp) as (n & q & Hrun & _).
  unfold outcomeOf in Hret. rewrite Hrun in Hret. discriminate Hret.
Qed.

(** C2. In the earlier version, with [displayStartCells = false] and
    [addWatermark = true], four loads are issued, the logo last; the promises
    are awaited by position; whenever [loadAssets] returns, its [ally] field
    holds the decoded logo and its [logo] and [enemy] fields are undefined
    (and it does return when the four files decode). So [render] never
    stamps the watermark: after the grid pass it goes straight to
    [toBuffer]. *)
Theorem logo_lands_in_ally_slot
    (K : Constants.t) (decode : string → option Image) (o : Options.t)
    (cells : list Cell) :
  Options.displayStartCells o = false → Options.addWatermark o = true →
  let logoPath := resolvePath o "E-bou" in
  requiredPaths o
  = [resolvePath o "areaUnitHigh"; resolvePath o "grayCell";
     resolvePath o "purpleCell"; logoPath]
  ∧ (∀ a, outcomeOf (Part000.loadAssets decode o) tt = Returned a →
          traceOf (Part000.loadAssets decode o) tt
          = (LoadImage <$> requiredPaths o) ++ (Await <$> requiredPaths o)
          ∧ is_Some (ally a) ∧ ally a = decode logoPath
          ∧ enemy a = None ∧ logo a = None)
  ∧ (Forall (λ p, is_Some (decode p)) (requiredPaths o) →
     ∃ a, outcomeOf (Part000.loadAssets decode o) tt = Returned a)
  ∧ Part000.render K decode (Part000.mkMap cells) o tt
    = match Part000.loadAssets decode o tt with
      | (Returned a, s1, loads) =>
          (Returned EncodedCanvas, s1,
           loads ++ Spec.blankCanvas K
           ++ concat ((λ c, traceOf (Part000.drawCell K a o c) s1) <$> cells)
           ++ [ToBuffer])
      | (Thrown e, s1, loads) => (Thrown e, s1, loads)
      end.
Proof.
  intros Hdsc Hwm. cbv zeta.
  assert (Hpaths : requiredPaths o
                   = [resolvePath o "areaUnitHigh"; resolvePath o "grayCell";
                      resolvePath o "purpleCell"; resolvePath o "E-bou"]).
  { unfold requiredPaths, assetEntries. rewrite Hdsc, Hwm. reflexivity. }
  assert (Hfields : ∀ a,
    outcomeOf (Part000.loadAssets decode o) tt = Returned a →
    traceOf (Part000.loadAssets decode o) tt
    = (LoadImage <$> requiredPaths o) ++ (Await <$> requiredPaths o)
    ∧ is_Some (ally a) ∧ ally a = decode (resolvePath o "E-bou")
    ∧ enemy a = None ∧ logo a = None).
  { intros a Hret.
    pose proof (Part000_loadAssets_returns decode o a Hret) as Hall.
    unfold outcomeOf, traceOf in *.
    rewrite (Part000_loadAssets_ok decode o Hall) in *.
    cbn [fst snd] in *. injection Hret as <-. cbn [ally enemy logo].
    rewrite Hpaths in *. cbn.
    split; [reflexivity|]. split; [|auto].
    apply Forall_forall with (x := resolvePath o "E-bou") in Hall;
      [exact Hall|]. do 3 apply list_elem_of_further. apply list_elem_of_here. }
  split; [exact Hpaths|]. split; [exact Hfields|]. split.
  - intros Hall. eexists. unfold outcomeOf.
    rewrite (Part000_loadAssets_ok decode o Hall). reflexivity.
  - rewrite Part000_render_run.
    destruct (Part000.loadAssets decode o tt) as [[[a|e] s1] loads] eqn:Hrun;
      [|reflexivity].
    destruct (Hfields a) as (_ & _ & _ & _ & Hlogo).
    { unfold outcomeOf. rewrite Hrun. reflexivity. }
    unfold Spec.watermarkLayer. rewrite Hwm, Hlogo. reflexivity.
Qed.

Lemma logo_lands_in_ally_slot_witness :
  let loaded :=
    {| high := decodeAll "assets/areaUnitHigh.png";
       gray := decodeAll "assets/grayCell.png";
       purple := decodeAll "assets/purpleCell.png";
       ally := decodeAll "assets/E-bou.png";
       enemy := None;
       logo := None |} in
  outcomeOf (Part000.loadAssets decodeAll sampleOptions) tt = Returned loaded
  ∧ (is_Some (ally loaded) ∧ ally loaded = decodeAll "assets/E-bou.png"
     ∧ enemy loaded = None ∧ logo loaded = None)
  ∧ (∃ a, outcomeOf (Part000.loadAssets decodeAll sampleOptions) tt
          = Returned a)
  ∧ Part000.render sampleConstants decodeAll (Part000.mkMap [sampleCell])
      sampleOptions tt
    = (Returned EncodedCanvas, tt,
       [LoadImage "assets/areaUnitHigh.png"; LoadImage "assets/grayCell.png";
        LoadImage "assets/purpleCell.png"; LoadImage "assets/E-bou.png";
        Await "assets/areaUnitHigh.png"; Await "assets/grayCell.png";
        Await "assets/purpleCell.png"; Await "assets/E-bou.png";
        CreateCanvas 1247 881; GetContext "2d"; SetFillStyle "black";
        FillRect 0 0 1247 881;
        DrawImage (decodeAll "assets/purpleCell.png") 129 (43 # 2) 86 43;
        DrawImage (decodeAll "assets/areaUnitHigh.png") 129 (43 # 2) 86 86;
        ToBuffer]).
Proof.
  intros loaded.
  pose proof (logo_lands_in_ally_slot sampleConstants decodeAll sampleOptions
                [sampleCell] eq_refl eq_refl)
    as (_ & Hfields & Hreturns & Hrender).
  split; [reflexivity|].
  split; [exact (proj2 (Hfields loaded eq_refl))|].
  split; [|exact Hrender].
  apply Hreturns. repeat constructor; eexists; reflexivity.
Defined.

(** ** The watermark *)

(** The stamp is at most 100 by 100 and its bottom-right corner is ten
    pixels inside the bottom-right corner of the canvas. *)
Lemma watermark_in_corner (K : Constants.t) (asset : Image) :
  ∃ x y w h : Q,
    Spec.watermark K asset = DrawImage (Some asset) x y w h
    ∧ w = inject_Z (Z.min 100 (width asset))
    ∧ h = inject_Z (Z.min 100 (height asset))
    ∧ (w <= 100)%Q ∧ (h <= 100)%Q
    ∧ (x + w == Constants.WIDTH K - 10)%Q
    ∧ (y + h == Constants.HEIGHT K - 10)%Q
    ∧ (Constants.WIDTH K - 110 <= x)%Q
    ∧ (Constants.HEIGHT K - 110 <= y)%Q.
Proof.
  eexists _, _, _, _. split; [reflexivity|].
  split; [reflexivity|]. split; [reflexivity|].
  assert (inject_Z (Z.min 100 (width asset)) <= 100)%Q as Hw.
  { change 100%Q with (inject_Z 100). rewrite <- Zle_Qle. lia. }
  assert (inject_Z (Z.min 100 (height asset)) <= 100)%Q as Hh.
  { change 100%Q with (inject_Z 100). rewrite <- Zle_Qle. lia. }
  repeat split; try assumption; try ring; lra.
Qed.

(** In [src/index.ts] a render that is asked for the watermark and gets its
    assets stamps the logo once, after the grid pass, just before
    [toBuffer]. *)
Lemma IndexTs_stamps_watermark K decode m o (s : gmap string Image) a s1 loads :
  Options.addWatermark o = true →
  IndexTs.loadAssets decode o s = (Returned a, s1, loads) →
  ∃ asset,
    logo a = Some asset
    ∧ s1 !! resolvePath o "E-bou" = Some asset
    ∧ traceOf (IndexTs.render K decode m o) s
      = loads ++ Spec.blankCanvas K
        ++ concat ((λ c, traceOf (IndexTs.drawCell K a o c) s1)
                     <$> IndexTs.cellsData (IndexTs.mapData m))
        ++ [Spec.watermark K asset; ToBuffer].
Proof.
  intros Hwm Hrun. pose proof Hrun as Hloop.
  rewrite IndexTs_loadAssets_run in Hloop.
  destruct (forOfAcc (assetEntries o) _ ∅ s) as [[[la|e] sa] ta] eqn:Hfor;
    [|discriminate Hloop].
  injection Hloop as <- <- <-.
  destruct (loop_fills decode o (assetEntries o) ∅ s la "logo" "E-bou"
              (assetEntries_NoDup o)) as (asset & Hkey & Hfinal).
  { unfold assetEntries. rewrite Hwm.
    apply elem_of_app. right. apply list_elem_of_here. }
  { unfold outcomeOf. rewrite Hfor. reflexivity. }
  unfold stateOf in Hfinal. rewrite Hfor in Hfinal. cbn in Hfinal.
  exists asset. split; [exact Hkey|]. split; [exact Hfinal|].
  unfold traceOf. rewrite IndexTs_render_run, Hrun. cbn [snd].
  unfold Spec.watermarkLayer. rewrite Hwm. cbn [logo]. rewrite Hkey.
  reflexivity.
Qed.

(** Neither version stamps anything when the watermark is not asked for. *)
Lemma no_watermark_when_disabled K o (a : LoadedAssets) :
  Options.addWatermark o = false → Spec.watermarkLayer K o a = [].
Proof. intros Hwm. unfold Spec.watermarkLayer. rewrite Hwm. reflexivity. Qed.

(** C1. The claim fails on the earlier version. With
    [displayStartCells = false] and [addWatermark = true], in a directory
    where every file decodes, and on an empty map: the logo decodes, yet the
    earlier version creates the canvas, paints it black and encodes it
    without stamping the logo, while [src/index.ts] on the same input stamps
    it once, 100 by 64 at (1137, 807), before encoding. *)
Theorem watermark_lost_by_position :
  decodeAll (resolvePath sampleOptions "E-bou")
  = Some (mkImage "assets/E-bou.png" 256 64)
  ∧ Part000.render sampleConstants decodeAll (Part000.mkMap [])
      sampleOptions tt
    = (Returned EncodedCanvas, tt,
       [LoadImage "assets/areaUnitHigh.png"; LoadImage "assets/grayCell.png";
        LoadImage "assets/purpleCell.png"; LoadImage "assets/E-bou.png";
        Await "assets/areaUnitHigh.png"; Await "assets/grayCell.png";
        Await "assets/purpleCell.png"; Await "assets/E-bou.png";
        CreateCanvas 1247 881; GetContext "2d"; SetFillStyle "black";
        FillRect 0 0 1247 881;
        ToBuffer])
  ∧ traceOf
      (IndexTs.render sampleConstants decodeAll
         (IndexTs.mkMap (IndexTs.mkMapData [])) sampleOptions) ∅
    = [LoadImage "assets/areaUnitHigh.png"; Await "assets/areaUnitHigh.png";
       LoadImage "assets/grayCell.png"; Await "assets/grayCell.png";
       LoadImage "assets/purpleCell.png"; Await "assets/purpleCell.png";
       LoadImage "assets/E-bou.png"; Await "assets/E-bou.png";
       CreateCanvas 1247 881; GetContext "2d"; SetFillStyle "black";
       FillRect 0 0 1247 881;
       DrawImage (Some (mkImage "assets/E-bou.png" 256 64)) 1137 807 100 64;
       ToBuffer].
Proof. repeat split; vm_compute; reflexivity. Qed.

(** ** When the loads are issued and awaited *)

Lemma loadsOf_loads (ps : list string) : loadsOf (LoadImage <$> ps) = ps.
Proof.
  induction ps as [|p ps IH]; [reflexivity|].
  unfold loadsOf in *. cbn. rewrite IH. reflexivity.
Qed.

Lemma loadsOf_awaits (ps : list string) : loadsOf (Await <$> ps) = [].
Proof.
  induction ps as [|p ps IH]; [reflexivity|].
  unfold loadsOf in *. cbn. exact IH.
Qed.




(** The loop of [src/index.ts] loads one at a time, and only paths it is
    asked for and does not find in the cache. *)
Lemma loop_one_at_a_time decode o l : ∀ la (s : gmap string Image),
  ∃ ps, traceOf (forOfAcc l (IndexTs.loadAsset decode o) la) s = oneAtATime ps
        ∧ Forall (λ p, p ∈ entryPaths o l) ps.
Proof.
  unfold traceOf.
  induction l as [|[key value] l IH]; intros la s.
  - exists []. split; [reflexivity | constructor].
  - destruct (s !! resolvePath o value) as [cached|] eqn:Hs.
    + rewrite (loop_cons_hit _ _ _ _ _ _ _ _ Hs).
      destruct (IH (<[key := cached]> la) s) as (ps & Hps & Hall).
      exists ps. split; [exact Hps|].
      eapply Forall_impl; [exact Hall|]. intros p Hp.
      apply list_elem_of_further, Hp.
    + destruct (decode (resolvePath o value)) as [img|] eqn:Hd.
      * rewrite (loop_cons_miss _ _ _ _ _ _ _ _ Hs Hd). cbn.
        destruct (IH (<[key := img]> la) (<[resolvePath o value := img]> s))
          as (ps & Hps & Hall).
        exists (resolvePath o value :: ps). rewrite Hps.
        split; [reflexivity|]. constructor; [apply list_elem_of_here|].
        eapply Forall_impl; [exact Hall|]. intros p Hp.
        apply list_elem_of_further, Hp.
      * rewrite (loop_cons_fail _ _ _ _ _ _ _ Hs Hd). cbn.
        exists [resolvePath o value]. split; [reflexivity|].
        repeat constructor.
Qed.


(** Whatever decodes, the earlier version issues every load, then awaits
    the promises in order, all of them or up to the first that rejects. *)
Lemma Part000_loadAssets_trace decode o :
  ∃ k : nat,
    traceOf (Part000.loadAssets decode o) tt
    = (LoadImage <$> requiredPaths o)
      ++ (Await <$> take k (requiredPaths o)).
Proof.
  destruct (decide (Forall (λ p, is_Some (decode p)) (requiredPaths o)))
    as [Hall|Hnot].
  - exists (length (requiredPaths o)). unfold traceOf.
    rewrite (Part000_loadAssets_ok decode o Hall), firstn_all. reflexivity.
  - apply not_Forall_Exists in Hnot; [|apply _].
    apply Exists_exists in Hnot as (p & Hin & Hp).
    destruct (decode p) as [image|] eqn:Hdec.
    { exfalso. apply Hp. exists image. exact Hdec. }
    destruct (Part000_loadAssets_fail decode o p Hin Hdec)
      as (n & q & Hrun & _).
    exists (S n). unfold traceOf. rewrite Hrun. reflexivity.
Qed.






(** * Further properties of the code *)

(** ** The resolved paths *)

Lemma resolvePath_inj o v v' :
  resolvePath o v = resolvePath o v' → v +:+ ".png" = v' +:+ ".png".
Proof.
  unfold resolvePath. intros H.
  apply (inj (String.app _)) in H. apply (inj (String.app _)) in H. exact H.
Qed.

(** The assets of one render are distinct files. *)
Lemma requiredPaths_NoDup o : NoDup (requiredPaths o).
Proof.
  unfold requiredPaths, entryPaths.
  apply NoDup_fmap_2_strong.
  - intros [k v] [k' v'] Hin Hin' Heq. cbn in Heq.
    apply resolvePath_inj in Heq.
    destruct o as [assetPath [] []]; unfold assetEntries in *; cbn in *;
      repeat (apply elem_of_cons in Hin;
              destruct Hin as [Hin|Hin]; [injection Hin as -> ->|]);
      try (inversion Hin; fail);
      repeat (apply elem_of_cons in Hin';
              destruct Hin' as [Hin'|Hin']; [injection Hin' as -> ->|]);
      try (inversion Hin'; fail);
      first [reflexivity | discriminate Heq].
  - destruct o as [assetPath [] []]; unfold assetEntries; cbn;
      apply NoDup_ListNoDup; repeat constructor; cbn;
      intuition discriminate.
Qed.

(** ** The cache of [src/index.ts] as a render leaves it *)

Section CacheFacts.
Variable decode : string → option Image.
Variable options : Options.t.

Local Abbreviation loop l la :=
  (forOfAcc l (IndexTs.loadAsset decode options) la).

Local Abbreviation paths l := (entryPaths options l).

(** Where a cached image comes from: it was cached before, or the loop
    decoded it for one of its paths. *)
Lemma loop_state_origin l : ∀ la (s : gmap string Image) p image,
  stateOf (loop l la) s !! p = Some image →
  s !! p = Some image ∨ (decode p = Some image ∧ p ∈ paths l).
Proof.
  unfold stateOf.
  induction l as [|[key value] l IH]; intros la s p image Hp.
  - left. exact Hp.
  - destruct (s !! resolvePath options value) as [cached|] eqn:Hs.
    + rewrite (loop_cons_hit _ _ _ _ _ _ _ _ Hs) in Hp.
      destruct (IH _ _ _ _ Hp) as [H|[H1 H2]]; [left; exact H|].
      right. split; [exact H1|]. apply list_elem_of_further, H2.
    + destruct (decode (resolvePath options value)) as [img|] eqn:Hd.
      * rewrite (loop_cons_miss _ _ _ _ _ _ _ _ Hs Hd) in Hp. cbn in Hp.
        destruct (IH _ _ _ _ Hp) as [H|[H1 H2]].
        -- destruct (decide (resolvePath options value = p)) as [<-|Hne].
           ++ rewrite lookup_insert_eq in H. injection H as <-.
              right. split; [exact Hd|]. apply list_elem_of_here.
           ++ rewrite lookup_insert_ne in H by exact Hne. left. exact H.
        -- right. split; [exact H1|]. apply list_elem_of_further, H2.
      * rewrite (loop_cons_fail _ _ _ _ _ _ _ Hs Hd) in Hp. left. exact Hp.
Qed.

(** With every path cached the loop loads nothing, leaves the cache alone
    and completes, whatever the files have become. *)
Lemma loop_warm l : ∀ la (s : gmap string Image),
  Forall (λ p, is_Some (s !! p)) (paths l) →
  ∃ la', loop l la s = (Returned la', s, []).
Proof.
  induction l as [|[key value] l IH]; intros la s Hall.
  - exists la. reflexivity.
  - cbn in Hall. apply Forall_cons in Hall as [[cached Hs] Hall].
    rewrite (loop_cons_hit _ _ _ _ _ _ _ _ Hs). apply IH, Hall.
Qed.

(** The loop completes when every path is available. *)
Lemma loop_returns l : ∀ la (s : gmap string Image),
  Forall (available decode s) (paths l) →
  ∃ la', outcomeOf (loop l la) s = Returned la'.
Proof.
  unfold outcomeOf.
  induction l as [|[key value] l IH]; intros la s Hall.
  - exists la. reflexivity.
  - cbn in Hall. apply Forall_cons in Hall as [Hhead Hall].
    destruct (s !! resolvePath options value) as [cached|] eqn:Hs.
    + rewrite (loop_cons_hit _ _ _ _ _ _ _ _ Hs). apply IH, Hall.
    + destruct Hhead as [[c Hc]|[img Hd]]; [congruence|].
      rewrite (loop_cons_miss _ _ _ _ _ _ _ _ Hs Hd). cbn.
      apply IH. eapply Forall_impl; [exact Hall|].
      intros p [[c Hc]|Hdec]; [|right; exact Hdec].
      left. destruct (decide (resolvePath options value = p)) as [<-|Hne].
      * rewrite lookup_insert_eq. eexists. reflexivity.
      * rewrite lookup_insert_ne by exact Hne. exists c. exact Hc.
Qed.

(** A loop that throws names the first of its paths that is neither cached
    nor decodable; the paths before it were all available. *)
Lemma loop_first_failure l : ∀ la (s : gmap string Image) e,
  outcomeOf (loop l la) s = Thrown e →
  ∃ done q rest,
    paths l = done ++ q :: rest
    ∧ Forall (available decode s) done
    ∧ s !! q = None ∧ decode q = None
    ∧ e = LoadError q.
Proof.
  unfold outcomeOf.
  induction l as [|[key value] l IH]; intros la s e Hthrown.
  - discriminate Hthrown.
  - destruct (s !! resolvePath options value) as [cached|] eqn:Hs.
    + rewrite (loop_cons_hit _ _ _ _ _ _ _ _ Hs) in Hthrown.
      destruct (IH _ _ _ Hthrown) as (done & q & rest & Hp & Hd & Hq & Hn & He).
      exists (resolvePath options value :: done), q, rest.
      split; [cbn; f_equal; exact Hp|].
      split; [constructor; [left; exists cached; exact Hs | exact Hd]|].
      auto.
    + destruct (decode (resolvePath options value)) as [img|] eqn:Hdec.
      * rewrite (loop_cons_miss _ _ _ _ _ _ _ _ Hs Hdec) in Hthrown.
        cbn in Hthrown.
        destruct (IH _ _ _ Hthrown)
          as (done & q & rest & Hp & Hd & Hq & Hn & He).
        exists (resolvePath options value :: done), q, rest.
        split; [cbn; f_equal; exact Hp|].
        split.
        { constructor; [right; exists img; exact Hdec|].
          eapply Forall_impl; [exact Hd|].
          intros p [[c Hc]|Hdp]; [|right; exact Hdp].
          destruct (decide (resolvePath options value = p)) as [<-|Hne].
          - right. exists img. exact Hdec.
          - rewrite lookup_insert_ne in Hc by exact Hne.
            left. exists c. exact Hc. }
        split; [|auto].
        destruct (decide (resolvePath options value = q)) as [<-|Hne].
        -- rewrite lookup_insert_eq in Hq. discriminate Hq.
        -- rewrite lookup_insert_ne in Hq by exact Hne. exact Hq.
      * rewrite (loop_cons_fail _ _ _ _ _ _ _ Hs Hdec) in Hthrown.
        cbn in Hthrown. injection Hthrown as <-.
        exists [], (resolvePath options value), (paths l).
        split; [reflexivity|]. split; [constructor|]. auto.
Qed.

(** From a cache that holds none of its (distinct) paths, the loop loads
    them in order: all of them when it completes. *)
Lemma loop_cold_order l : ∀ la (s : gmap string Image) la',
  NoDup (paths l) → Forall (λ p, s !! p = None) (paths l) →
  outcomeOf (loop l la) s = Returned la' →
  loadsOf (traceOf (loop l la) s) = paths l.
Proof.
  unfold outcomeOf, traceOf.
  induction l as [|[key value] l IH]; intros la s la' Hnd Hcold Hret.
  - reflexivity.
  - cbn in Hnd, Hcold. apply NoDup_cons in Hnd as [Hnotin Hnd].
    apply Forall_cons in Hcold as [Hs Hcold].
    destruct (decode (resolvePath options value)) as [img|] eqn:Hd.
    + rewrite (loop_cons_miss _ _ _ _ _ _ _ _ Hs Hd) in *. cbn [fst snd] in *.
      rewrite loadsOf_app.
      change (loadsOf [LoadImage (resolvePath options value);
                       Await (resolvePath options value)])
        with [resolvePath options value].
      cbn. f_equal. eapply IH; [exact Hnd| |exact Hret].
      apply Forall_forall. intros p Hp.
      rewrite lookup_insert_ne.
      * eapply Forall_forall in Hcold; [exact Hcold|exact Hp].
      * intros Heq. apply Hnotin. rewrite Heq. exact Hp.
    + rewrite (loop_cons_fail _ _ _ _ _ _ _ Hs Hd) in Hret.
      discriminate Hret.
Qed.

End CacheFacts.

Lemma IndexTs_render_outcome K decode m o (s : gmap string Image) :
  outcomeOf (IndexTs.render K decode m o) s
  = match outcomeOf
            (forOfAcc (assetEntries o) (IndexTs.loadAsset decode o) ∅) s with
    | Returned _ => Returned EncodedCanvas
    | Thrown e => Thrown e
    end.
Proof.
  unfold outcomeOf. rewrite IndexTs_render_run, IndexTs_loadAssets_run.
  destruct (forOfAcc _ _ _ s) as [[[la|e] s1] t1]; reflexivity.
Qed.

Lemma filter_absent (p : string) (l : list string) :
  p ∉ l → filter (λ q, q = p) l = [].
Proof.
  induction l as [|q l IH]; intros Hp; [reflexivity|].
  apply not_elem_of_cons in Hp as [Hne Hp].
  rewrite filter_cons_False by congruence. exact (IH Hp).
Qed.

Lemma count_in_NoDup (p : string) (l : list string) :
  NoDup l → p ∈ l → length (filter (λ q, q = p) l) = 1%nat.
Proof.
  induction 1 as [|q l Hq Hnd IH]; intros Hin; [inversion Hin|].
  apply elem_of_cons in Hin.
  destruct (decide (q = p)) as [->|Hne].
  - rewrite filter_cons_True by reflexivity.
    rewrite (filter_absent p l Hq). reflexivity.
  - rewrite filter_cons_False by exact Hne.
    destruct Hin as [->|Hin]; [congruence|]. exact (IH Hin).
Qed.

(** X1. A render of [src/index.ts] never evicts or replaces a cache entry;
    every entry it adds maps a path it requires to what that path decodes to,
    so a cache that agrees with the files still does afterwards; and an image
    it decoded is in the cache afterwards even when the render throws on a
    later asset. *)
Theorem cache_only_grows_with_decoded_images
    (K : Constants.t) (decode : string → option Image)
    (m : IndexTs.Map) (o : Options.t) (s : gmap string Image) :
  let s' := stateOf (IndexTs.render K decode m o) s in
  (∀ p image, s !! p = Some image → s' !! p = Some image)
  ∧ (∀ p image, s' !! p = Some image →
       s !! p = Some image ∨ (decode p = Some image ∧ p ∈ requiredPaths o))
  ∧ (cacheAgrees decode s → cacheAgrees decode s')
  ∧ (∀ p image,
       p ∈ loadsOf (traceOf (IndexTs.render K decode m o) s) →
       decode p = Some image → s' !! p = Some image).
Proof.
  cbv zeta. destruct (IndexTs_render_loads K decode m o s) as [Hloads Hstate].
  rewrite Hstate, Hloads.
  assert (Horigin : ∀ p image,
    stateOf (forOfAcc (assetEntries o) (IndexTs.loadAsset decode o) ∅) s !! p
    = Some image →
    s !! p = Some image ∨ (decode p = Some image ∧ p ∈ requiredPaths o)).
  { intros p image. apply loop_state_origin. }
  split; [|split; [exact Horigin|split]].
  - intros p image Hp. apply loop_cached, Hp.
  - intros Hagree p image Hp.
    destruct (Horigin p image Hp) as [H|[H _]]; [apply Hagree, H | exact H].
  - intros p image Hin Hdec.
    apply (loop_loaded_once decode o (assetEntries o) ∅ s p image Hin Hdec).
Qed.

Lemma cache_only_grows_with_decoded_images_witness :
  let render :=
    IndexTs.render sampleConstants (decodeAllBut "assets/purpleCell.png")
      (IndexTs.mkMap (IndexTs.mkMapData [sampleCell])) sampleOptions in
  outcomeOf render ∅ = Thrown (LoadError "assets/purpleCell.png")
  ∧ stateOf render ∅ !! "assets/grayCell.png"
    = Some (mkImage "assets/grayCell.png" 256 64)
  ∧ cacheAgrees (decodeAllBut "assets/purpleCell.png") (stateOf render ∅).
Proof.
  intros render.
  destruct (cache_only_grows_with_decoded_images sampleConstants
              (decodeAllBut "assets/purpleCell.png")
              (IndexTs.mkMap (IndexTs.mkMapData [sampleCell]))
              sampleOptions ∅) as (_ & _ & Hagree & Hkept).
  split; [vm_compute; reflexivity|]. split.
  - apply Hkept; [|reflexivity].
    vm_compute. apply list_elem_of_further, list_elem_of_here.
  - apply Hagree. intros p image Hp. rewrite lookup_empty in Hp.
    discriminate Hp.
Defined.

Lemma loop_returned_caches decode o l : ∀ la (s : gmap string Image) la',
  outcomeOf (forOfAcc l (IndexTs.loadAsset decode o) la) s = Returned la' →
  Forall
    (λ p, is_Some
            (stateOf (forOfAcc l (IndexTs.loadAsset decode o) la) s !! p))
    (entryPaths o l).
Proof.
  unfold outcomeOf, stateOf.
  induction l as [|[key value] l IH]; intros la s la' Hret; [constructor|].
  change (entryPaths o ((key, value) :: l))
    with (resolvePath o value :: entryPaths o l).
  destruct (s !! resolvePath o value) as [cached|] eqn:Hs.
  - rewrite (loop_cons_hit _ _ _ _ _ _ _ _ Hs) in *. constructor.
    + exists cached.
      apply (loop_cached decode o l (<[key := cached]> la) s _ _ Hs).
    + eapply IH, Hret.
  - destruct (decode (resolvePath o value)) as [img|] eqn:Hd.
    + rewrite (loop_cons_miss _ _ _ _ _ _ _ _ Hs Hd) in *. cbn [fst snd] in *.
      constructor.
      * exists img.
        apply (loop_cached decode o l (<[key := img]> la)
                 (<[resolvePath o value := img]> s)).
        apply lookup_insert_eq.
      * eapply IH, Hret.
    + rewrite (loop_cons_fail _ _ _ _ _ _ _ Hs Hd) in Hret. discriminate Hret.
Qed.

Lemma IndexTs_warm_render K decode m o (s : gmap string Image) :
  Forall (λ p, is_Some (s !! p)) (requiredPaths o) →
  outcomeOf (IndexTs.render K decode m o) s = Returned EncodedCanvas
  ∧ loadsOf (traceOf (IndexTs.render K decode m o) s) = []
  ∧ stateOf (IndexTs.render K decode m o) s = s.
Proof.
  intros Hwarm.
  destruct (loop_warm decode o (assetEntries o) ∅ s Hwarm) as [la Hrun].
  destruct (IndexTs_render_loads K decode m o s) as [Hloads Hstate].
  rewrite IndexTs_render_outcome, Hloads, Hstate.
  unfold outcomeOf, traceOf, stateOf. rewrite Hrun.
  repeat split; reflexivity.
Qed.

(** X2. When the cache of [src/index.ts] already holds every path a render
    requires, the render calls [loadImage] on nothing, completes and leaves
    the cache as it was, whatever the files have become since (also when
    none of them decodes any more). *)
Theorem warm_cache_render_needs_no_files
    (K : Constants.t) (decode : string → option Image)
    (m : IndexTs.Map) (o : Options.t) (s : gmap string Image) :
  Forall (λ p, is_Some (s !! p)) (requiredPaths o) →
  outcomeOf (IndexTs.render K decode m o) s = Returned EncodedCanvas
  ∧ loadsOf (traceOf (IndexTs.render K decode m o) s) = []
  ∧ stateOf (IndexTs.render K decode m o) s = s.
Proof.
  intros Hwarm.
  destruct (loop_warm decode o (assetEntries o) ∅ s Hwarm) as [la Hrun].
  destruct (IndexTs_render_loads K decode m o s) as [Hloads Hstate].
  rewrite IndexTs_render_outcome, Hloads, Hstate.
  unfold outcomeOf, traceOf, stateOf. rewrite Hrun.
  repeat split; reflexivity.
Qed.

Lemma warm_cache_render_needs_no_files_witness :
  let warm : gmap string Image :=
    stateOf (IndexTs.loadAssets decodeAll sampleOptions) ∅ in
  let render :=
    IndexTs.render sampleConstants (λ _, None)
      (IndexTs.mkMap (IndexTs.mkMapData [sampleCell])) sampleOptions in
  outcomeOf render warm = Returned EncodedCanvas
  ∧ loadsOf (traceOf render warm) = []
  ∧ stateOf render warm = warm.
Proof.
  intros warm render.
  apply (warm_cache_render_needs_no_files sampleConstants (λ _, None)).
  vm_compute. repeat constructor; eexists; reflexivity.
Defined.

(** X3. After a render of [src/index.ts] that completed, a render whose
    required paths are among those of the first one (the same options, say,
    on any map) calls [loadImage] on nothing, completes and leaves the cache
    as it found it. *)
Theorem repeated_render_loads_nothing
    (K : Constants.t) (decode : string → option Image)
    (m1 m2 : IndexTs.Map) (o1 o2 : Options.t)
    (s0 : gmap string Image) (b1 : Buffer) :
  outcomeOf (IndexTs.render K decode m1 o1) s0 = Returned b1 →
  Forall (λ p, p ∈ requiredPaths o1) (requiredPaths o2) →
  let s1 := stateOf (IndexTs.render K decode m1 o1) s0 in
  outcomeOf (IndexTs.render K decode m2 o2) s1 = Returned EncodedCanvas
  ∧ loadsOf (traceOf (IndexTs.render K decode m2 o2) s1) = []
  ∧ stateOf (IndexTs.render K decode m2 o2) s1 = s1.
Proof.
  intros Hret Hsub. cbv zeta.
  apply IndexTs_warm_render.
  destruct (IndexTs_render_returns _ _ _ _ _ _ Hret) as [la Hla].
  pose proof (loop_returned_caches decode o1 (assetEntries o1) ∅ s0 la Hla)
    as Hcached.
  rewrite (proj2 (IndexTs_render_loads K decode m1 o1 s0)).
  eapply Forall_impl; [exact Hsub|]. intros p Hp.
  eapply Forall_forall in Hcached; [exact Hcached | exact Hp].
Qed.

Lemma repeated_render_loads_nothing_witness :
  let render1 :=
    IndexTs.render sampleConstants decodeAll
      (IndexTs.mkMap (IndexTs.mkMapData [sampleCell]))
      (Options.mk "assets" true true) in
  let render2 :=
    IndexTs.render sampleConstants decodeAll
      (IndexTs.mkMap (IndexTs.mkMapData [])) sampleOptions in
  loadsOf (traceOf render2 (stateOf render1 ∅)) = [].
Proof.
  intros render1 render2.
  refine (proj1 (proj2
    (repeated_render_loads_nothing sampleConstants decodeAll
       (IndexTs.mkMap (IndexTs.mkMapData [sampleCell]))
       (IndexTs.mkMap (IndexTs.mkMapData []))
       (Options.mk "assets" true true) sampleOptions ∅ EncodedCanvas
       eq_refl _))).
  vm_compute.
  repeat (constructor;
          [first [ apply list_elem_of_here
                 | do 1 apply list_elem_of_further; apply list_elem_of_here
                 | do 2 apply list_elem_of_further; apply list_elem_of_here
                 | do 5 apply list_elem_of_further; apply list_elem_of_here ]|]).
  constructor.
Defined.

(** ** When a render completes, and what it reports when it does not *)

Lemma Part000_render_outcome K decode m o :
  outcomeOf (Part000.render K decode m o) tt
  = match outcomeOf (Part000.loadAssets decode o) tt with
    | Returned _ => Returned EncodedCanvas
    | Thrown e => Thrown e
    end.
Proof.
  unfold outcomeOf. rewrite Part000_render_run.
  destruct (Part000.loadAssets decode o tt) as [[[a|e] s1] t1]; reflexivity.
Qed.

(** X4. A render of [src/index.ts] completes exactly when every path it
    requires is cached or decodes; a render of the earlier version, which has
    no cache, exactly when every path it requires decodes. *)
Theorem render_completes_iff_assets_available
    (K : Constants.t) (decode : string → option Image) (o : Options.t)
    (cells : list Cell) (s : gmap string Image) :
  (outcomeOf
     (IndexTs.render K decode (IndexTs.mkMap (IndexTs.mkMapData cells)) o) s
   = Returned EncodedCanvas
   ↔ Forall (available decode s) (requiredPaths o))
  ∧ (outcomeOf (Part000.render K decode (Part000.mkMap cells) o) tt
     = Returned EncodedCanvas
     ↔ Forall (λ p, is_Some (decode p)) (requiredPaths o)).
Proof.
  split; split.
  - intros Hret. apply Forall_forall. intros p Hp.
    destruct (s !! p) as [c|] eqn:Hs; [left; exists c; exact Hs|].
    destruct (decode p) as [img|] eqn:Hd; [right; exists img; exact Hd|].
    exfalso.
    destruct (loop_fails decode o (assetEntries o) ∅ s p Hs Hp Hd)
      as (q & Hq & _).
    rewrite IndexTs_render_outcome, Hq in Hret. discriminate Hret.
  - intros Hall.
    destruct (loop_returns decode o (assetEntries o) ∅ s Hall) as [la Hla].
    rewrite IndexTs_render_outcome, Hla. reflexivity.
  - intros Hret. rewrite Part000_render_outcome in Hret.
    destruct (outcomeOf (Part000.loadAssets decode o) tt) as [a|e] eqn:Ha;
      [|discriminate Hret].
    exact (Part000_loadAssets_returns decode o a Ha).
  - intros Hall. rewrite Part000_render_outcome. unfold outcomeOf.
    rewrite (Part000_loadAssets_ok decode o Hall). reflexivity.
Qed.

Lemma render_completes_iff_assets_available_witness :
  outcomeOf
    (IndexTs.render sampleConstants (decodeAllBut "assets/grayCell.png")
       (IndexTs.mkMap (IndexTs.mkMapData [sampleCell])) sampleOptions)
    {[ "assets/grayCell.png" := mkImage "assets/grayCell.png" 256 64 ]}
  = Returned EncodedCanvas
  ∧ ¬ Forall (λ p, is_Some (decodeAllBut "assets/grayCell.png" p))
        (requiredPaths sampleOptions).
Proof.
  destruct (render_completes_iff_assets_available sampleConstants
              (decodeAllBut "assets/grayCell.png") sampleOptions [sampleCell]
              {[ "assets/grayCell.png" :=
                   mkImage "assets/grayCell.png" 256 64 ]})
    as [[_ HTs] [_ H000]].
  split.
  - apply HTs. vm_compute.
    repeat (constructor; [first [ right; eexists; reflexivity
                                | left; eexists; reflexivity ]|]).
    constructor.
  - intros Hall. apply H000 in Hall. vm_compute in Hall. discriminate Hall.
Defined.

(** X5. When a render of [src/index.ts] throws, the error names the first
    required path, in the order high, gray, purple, ally, enemy, logo, that
    is neither cached nor decodable: every required path before it was
    available. *)
Theorem index_ts_reports_first_missing_asset
    (K : Constants.t) (decode : string → option Image)
    (m : IndexTs.Map) (o : Options.t) (s : gmap string Image) (e : Error) :
  outcomeOf (IndexTs.render K decode m o) s = Thrown e →
  ∃ before q after,
    requiredPaths o = before ++ q :: after
    ∧ Forall (available decode s) before
    ∧ s !! q = None ∧ decode q = None
    ∧ e = LoadError q.
Proof.
  rewrite IndexTs_render_outcome. intros Hthrown.
  apply (loop_first_failure decode o (assetEntries o) ∅ s e).
  destruct (outcomeOf _ s) as [la|e']; [discriminate Hthrown|].
  injection Hthrown as ->. reflexivity.
Qed.

Lemma index_ts_reports_first_missing_asset_witness :
  ∃ before q after,
    requiredPaths sampleOptions = before ++ q :: after
    ∧ Forall (available (λ _, None)
                {[ "assets/areaUnitHigh.png" :=
                     mkImage "assets/areaUnitHigh.png" 256 64 ]}) before
    ∧ ({[ "assets/areaUnitHigh.png" :=
            mkImage "assets/areaUnitHigh.png" 256 64 ]} : gmap string Image)
      !! q = None
    ∧ (λ _ : string, @None Image) q = None
    ∧ LoadError "assets/grayCell.png" = LoadError q.
Proof.
  apply (index_ts_reports_first_missing_asset sampleConstants (λ _, None)
           (IndexTs.mkMap (IndexTs.mkMapData [sampleCell])) sampleOptions
           {[ "assets/areaUnitHigh.png" :=
                mkImage "assets/areaUnitHigh.png" 256 64 ]}
           (LoadError "assets/grayCell.png")).
  vm_compute. reflexivity.
Defined.

Lemma Part000_first_failure decode o e :
  outcomeOf (Part000.loadAssets decode o) tt = Thrown e →
  ∃ (n : nat) (q : string),
    requiredPaths o !! n = Some q
    ∧ Forall (λ p, is_Some (decode p)) (take n (requiredPaths o))
    ∧ decode q = None ∧ e = LoadError q.
Proof.
  destruct o as [assetPath [] []];
    unfold outcomeOf, requiredPaths, assetEntries, entryPaths,
      Part000.loadAssets;
    cbn; by_decodes decode; intros Hthrown;
    try discriminate Hthrown; injection Hthrown as <-;
    first
      [ exists 0%nat; eexists; split; [reflexivity|];
        split; [cbn; repeat constructor; eauto|]; split; [assumption|reflexivity]
      | exists 1%nat; eexists; split; [reflexivity|];
        split; [cbn; repeat constructor; eauto|]; split; [assumption|reflexivity]
      | exists 2%nat; eexists; split; [reflexivity|];
        split; [cbn; repeat constructor; eauto|]; split; [assumption|reflexivity]
      | exists 3%nat; eexists; split; [reflexivity|];
        split; [cbn; repeat constructor; eauto|]; split; [assumption|reflexivity]
      | exists 4%nat; eexists; split; [reflexivity|];
        split; [cbn; repeat constructor; eauto|]; split; [assumption|reflexivity]
      | exists 5%nat; eexists; split; [reflexivity|];
        split; [cbn; repeat constructor; eauto|]; split; [assumption|reflexivity]
      ].
Qed.

(** X6. When a render of the earlier version throws, the error names the
    first required path, in the order the loads were issued, that does not
    decode: every required path before it decodes. *)
Theorem part000_reports_first_missing_asset
    (K : Constants.t) (decode : string → option Image)
    (m : Part000.Map) (o : Options.t) (e : Error) :
  outcomeOf (Part000.render K decode m o) tt = Thrown e →
  ∃ before q after,
    requiredPaths o = before ++ q :: after
    ∧ Forall (λ p, is_Some (decode p)) before
    ∧ decode q = None
    ∧ e = LoadError q.
Proof.
  rewrite Part000_render_outcome. intros Hthrown.
  destruct (outcomeOf (Part000.loadAssets decode o) tt) as [a|e'] eqn:Hload;
    [discriminate Hthrown|].
  injection Hthrown as ->.
  destruct (Part000_first_failure decode o e Hload)
    as (n & q & Hlook & Hbefore & Hq & He).
  exists (take n (requiredPaths o)), q, (drop (S n) (requiredPaths o)).
  split; [|auto].
  rewrite <- (take_drop_middle _ _ _ Hlook) at 1. reflexivity.
Qed.

Lemma part000_reports_first_missing_asset_witness :
  ∃ before q after,
    requiredPaths sampleOptions = before ++ q :: after
    ∧ Forall (λ p, is_Some (decodeAllBut "assets/purpleCell.png" p)) before
    ∧ decodeAllBut "assets/purpleCell.png" q = None
    ∧ LoadError "assets/purpleCell.png" = LoadError q.
Proof.
  apply (part000_reports_first_missing_asset sampleConstants
           (decodeAllBut "assets/purpleCell.png")
           (Part000.mkMap [sampleCell]) sampleOptions
           (LoadError "assets/purpleCell.png")).
  vm_compute. reflexivity.
Defined.

(** ** How many loads a render makes *)

(** X7. A render of [src/index.ts] that completes from a cache holding none
    of its required paths calls [loadImage] on each of them exactly once, in
    the order high, gray, purple, ally, enemy, logo. *)
Theorem cold_cache_loads_in_order
    (K : Constants.t) (decode : string → option Image)
    (m : IndexTs.Map) (o : Options.t) (s : gmap string Image) (b : Buffer) :
  Forall (λ p, s !! p = None) (requiredPaths o) →
  outcomeOf (IndexTs.render K decode m o) s = Returned b →
  loadsOf (traceOf (IndexTs.render K decode m o) s) = requiredPaths o
  ∧ Forall
      (λ p, decodeCount p (traceOf (IndexTs.render K decode m o) s) = 1%nat)
      (requiredPaths o).
Proof.
  intros Hcold Hret.
  destruct (IndexTs_render_returns _ _ _ _ _ _ Hret) as [la Hla].
  pose proof (loop_cold_order decode o (assetEntries o) ∅ s la
                (requiredPaths_NoDup o) Hcold Hla) as Horder.
  assert (loadsOf (traceOf (IndexTs.render K decode m o) s)
          = requiredPaths o) as Hloads.
  { rewrite (proj1 (IndexTs_render_loads K decode m o s)). exact Horder. }
  split; [exact Hloads|].
  apply Forall_forall. intros p Hp. unfold decodeCount. rewrite Hloads.
  apply count_in_NoDup; [apply requiredPaths_NoDup | exact Hp].
Qed.

Lemma cold_cache_loads_in_order_witness :
  loadsOf
    (traceOf
       (IndexTs.render sampleConstants decodeAll
          (IndexTs.mkMap (IndexTs.mkMapData [sampleCell]))
          (Options.mk "assets" true true)) ∅)
  = ["assets/areaUnitHigh.png"; "assets/grayCell.png";
     "assets/purpleCell.png"; "assets/areaUnitAlly.png";
     "assets/areaUnitEnemy.png"; "assets/E-bou.png"].
Proof.
  refine (proj1
    (cold_cache_loads_in_order sampleConstants decodeAll
       (IndexTs.mkMap (IndexTs.mkMapData [sampleCell]))
       (Options.mk "assets" true true) ∅ EncodedCanvas _ eq_refl)).
  vm_compute. repeat constructor.
Defined.

Lemma Part000_drawCell_canvas K (a : LoadedAssets) o c (s : unit) :
  Forall (λ e, isCanvasCall e = true) (traceOf (Part000.drawCell K a o c) s).
Proof.
  unfold traceOf, Part000.drawCell.
  destruct (mov c), (los c), (nonWalkableDuringFight c), (blue c), (red c),
    (Options.displayStartCells o),
    (bool_decide (is_Some (ally a))), (bool_decide (is_Some (enemy a)));
    repeat constructor.
Qed.

Lemma Part000_render_loadsOf K decode m o :
  loadsOf (traceOf (Part000.render K decode m o) tt) = requiredPaths o.
Proof.
  destruct (Part000_loadAssets_trace decode o) as [k Hk].
  unfold traceOf in *. rewrite Part000_render_run.
  destruct (Part000.loadAssets decode o tt) as [[[a|e] s1] t1];
    cbn [snd] in *; subst t1.
  - rewrite loadsOf_app, (loadsOf_canvas (Spec.blankCanvas K ++ _)).
    + rewrite loadsOf_app, loadsOf_loads, loadsOf_awaits, !app_nil_r.
      reflexivity.
    + apply Forall_app. split; [repeat constructor|].
      apply Forall_app. split.
      * apply Forall_concat, Forall_fmap, Forall_forall. intros c _.
        apply Part000_drawCell_canvas.
      * apply Forall_app. split; [|repeat constructor].
        unfold Spec.watermarkLayer.
        destruct (Options.addWatermark o); [|constructor].
        destruct (logo a); repeat constructor.
  - rewrite loadsOf_app, loadsOf_loads, loadsOf_awaits. apply app_nil_r.
Qed.

(** X8. The earlier version has no cache: every render calls [loadImage] on
    every required path, once each and in order, whether or not the render
    completes; two renders with the same options decode every asset
    twice. *)
Theorem part000_decodes_everything_every_render
    (K : Constants.t) (decode : string → option Image)
    (m1 m2 : Part000.Map) (o : Options.t) :
  loadsOf (traceOf (Part000.render K decode m1 o) tt) = requiredPaths o
  ∧ Forall
      (λ p, decodeCount p
              (traceOf (Part000.render K decode m1 o) tt
               ++ traceOf (Part000.render K decode m2 o) tt)
            = 2%nat)
      (requiredPaths o).
Proof.
  split; [apply Part000_render_loadsOf|].
  apply Forall_forall. intros p Hp.
  unfold decodeCount.
  rewrite loadsOf_app, !Part000_render_loadsOf, filter_app, length_app.
  rewrite (count_in_NoDup p _ (requiredPaths_NoDup o) Hp). reflexivity.
Qed.

(** ** The assets a load returns *)

Lemma fieldOf_absent (la : gmap string Image) key :
  la !! key = None →
  fieldOf key {| high := la !! "high"; gray := la !! "gray";
                 purple := la !! "purple"; ally := la !! "ally";
                 enemy := la !! "enemy"; logo := la !! "logo" |}
  = None.
Proof.
  intros Hkey. unfold fieldOf.
  repeat match goal with
         | |- context [String.eqb key ?k] =>
             destruct (String.eqb_spec key k) as [Heq|_];
             [rewrite Heq in Hkey; exact Hkey|]
         end.
  reflexivity.
Qed.

(** X9. In [src/index.ts] each field of the object [loadAssets] returns holds
    the image of its own file: for every entry (key, name) of the options,
    the field [key] is the image the cache now holds for the path of [name],
    which is what that path decodes to when the cache agreed with the files;
    and a key the options do not ask for is left undefined. *)
Theorem index_ts_fields_hold_their_own_files
    (decode : string → option Image) (o : Options.t)
    (s : gmap string Image) (a : LoadedAssets) :
  outcomeOf (IndexTs.loadAssets decode o) s = Returned a →
  (∀ key value, (key, value) ∈ assetEntries o →
     ∃ image,
       fieldOf key a = Some image
       ∧ stateOf (IndexTs.loadAssets decode o) s !! resolvePath o value
         = Some image
       ∧ (cacheAgrees decode s → decode (resolvePath o value) = Some image))
  ∧ (∀ key, key ∉ (assetEntries o).*1 → fieldOf key a = None).
Proof.
  unfold outcomeOf, stateOf. rewrite IndexTs_loadAssets_run.
  destruct (forOfAcc (assetEntries o) _ ∅ s) as [[[la|e] s1] t1] eqn:Hrun;
    [|discriminate].
  cbn [fst snd]. intros [= <-]. split.
  - intros key value Hkv.
    destruct (loop_fills decode o (assetEntries o) ∅ s la key value
                (assetEntries_NoDup o) Hkv) as (image & Hkey & Hfinal).
    { unfold outcomeOf. rewrite Hrun. reflexivity. }
    unfold stateOf in Hfinal. rewrite Hrun in Hfinal. cbn in Hfinal.
    exists image. rewrite (fieldOf_loaded la o key value Hkv).
    split; [exact Hkey|]. split; [exact Hfinal|].
    intros Hagree.
    destruct (loop_state_origin decode o (assetEntries o) ∅ s
                (resolvePath o value) image) as [H|[H _]].
    { unfold stateOf. rewrite Hrun. exact Hfinal. }
    + apply Hagree, H.
    + exact H.
  - intros key Hkey. apply fieldOf_absent.
    rewrite (loop_keeps decode o (assetEntries o) ∅ s la key Hkey).
    + apply lookup_empty.
    + unfold outcomeOf. rewrite Hrun. reflexivity.
Qed.

Lemma index_ts_fields_hold_their_own_files_witness :
  let a :=
    {| high := decodeAll "assets/areaUnitHigh.png";
       gray := decodeAll "assets/grayCell.png";
       purple := decodeAll "assets/purpleCell.png";
       ally := None; enemy := None;
       logo := decodeAll "assets/E-bou.png" |} in
  (∃ image, fieldOf "logo" a = Some image
            ∧ decodeAll (resolvePath sampleOptions "E-bou") = Some image)
  ∧ fieldOf "ally" a = None.
Proof.
  intros a.
  assert (outcomeOf (IndexTs.loadAssets decodeAll sampleOptions) ∅
          = Returned a) as Hrun by (vm_compute; reflexivity).
  destruct (index_ts_fields_hold_their_own_files decodeAll sampleOptions ∅ a
              Hrun) as [Hfields Habsent].
  split.
  - destruct (Hfields "logo" "E-bou") as (image & Hf & _ & Hd).
    { vm_compute. do 3 apply list_elem_of_further. apply list_elem_of_here. }
    exists image. split; [exact Hf|]. apply Hd.
    intros p img Hp. rewrite lookup_empty in Hp. discriminate Hp.
  - apply Habsent. vm_compute. intros Hin.
    repeat (apply elem_of_cons in Hin;
            destruct Hin as [Hin|Hin]; [discriminate Hin|]).
    inversion Hin.
Defined.

(** X10. In the earlier version the positional read-back is right whenever
    the start cells are displayed or the watermark is off: then, for every
    entry (key, name) of the options, the field [key] of the object
    [loadAssets] returns is what the path of [name] decodes to, and it is
    defined. *)
Theorem part000_fields_hold_their_own_files
    (decode : string → option Image) (o : Options.t) (a : LoadedAssets) :
  Options.displayStartCells o = true ∨ Options.addWatermark o = false →
  outcomeOf (Part000.loadAssets decode o) tt = Returned a →
  ∀ key value, (key, value) ∈ assetEntries o →
    fieldOf key a = decode (resolvePath o value)
    ∧ is_Some (fieldOf key a).
Proof.
  intros Hopt Hret key value Hkv.
  pose proof (Part000_loadAssets_returns decode o a Hret) as Hall.
  unfold outcomeOf in Hret.
  rewrite (Part000_loadAssets_ok decode o Hall) in Hret.
  cbn [fst] in Hret. injection Hret as <-.
  assert (is_Some (decode (resolvePath o value))) as Hsome.
  { eapply Forall_forall in Hall; [exact Hall|].
    unfold requiredPaths, entryPaths. apply list_elem_of_fmap.
    exists (key, value). split; [reflexivity | exact Hkv]. }
  assert (∀ x y : option Image, x = y → is_Some y → x = y ∧ is_Some x) as Hpair.
  { intros x y -> Hy. split; [reflexivity | exact Hy]. }
  apply Hpair; [|exact Hsome]. clear Hpair Hsome Hall.
  destruct o as [assetPath dsc wm]. cbn in Hopt.
  destruct dsc, wm;
    try (destruct Hopt as [Hopt|Hopt]; discriminate Hopt);
    unfold assetEntries, requiredPaths, entryPaths in *; cbn in *;
    repeat (apply elem_of_cons in Hkv;
            destruct Hkv as [Hkv|Hkv];
            [injection Hkv as -> ->; reflexivity|]);
    inversion Hkv.
Qed.

Lemma part000_fields_hold_their_own_files_witness :
  let a :=
    {| high := decodeAll "assets/areaUnitHigh.png";
       gray := decodeAll "assets/grayCell.png";
       purple := decodeAll "assets/purpleCell.png";
       ally := decodeAll "assets/areaUnitAlly.png";
       enemy := decodeAll "assets/areaUnitEnemy.png";
       logo := decodeAll "assets/E-bou.png" |} in
  fieldOf "logo" a = decodeAll (resolvePath (Options.mk "assets" true true)
                                  "E-bou").
Proof.
  intros a.
  refine (proj1
    (part000_fields_hold_their_own_files decodeAll
       (Options.mk "assets" true true) a (or_introl eq_refl) eq_refl
       "logo" "E-bou" _)).
  vm_compute. do 5 apply list_elem_of_further. apply list_elem_of_here.
Defined.

(** Unclaimed corollaries of the two theorems on fields, in the form the
    start-zone theorem needs. *)
Lemma index_ts_fields_defined_for_entries decode o (s : gmap string Image)
    a key value :
  outcomeOf (IndexTs.loadAssets decode o) s = Returned a →
  (key, value) ∈ assetEntries o →
  ∃ image, fieldOf key a = Some image.
Proof.
  unfold outcomeOf. rewrite IndexTs_loadAssets_run.
  destruct (forOfAcc (assetEntries o) _ ∅ s) as [[[la|e] s1] t1] eqn:Hrun;
    [|discriminate].
  cbn [fst]. intros [= <-] Hkv.
  destruct (loop_fills decode o (assetEntries o) ∅ s la key value
              (assetEntries_NoDup o) Hkv) as (image & Hkey & _).
  { unfold outcomeOf. rewrite Hrun. reflexivity. }
  exists image. rewrite (fieldOf_loaded la o key value Hkv). exact Hkey.
Qed.

Lemma part000_fields_defined_for_entries decode o a :
  Options.displayStartCells o = true ∨ Options.addWatermark o = false →
  outcomeOf (Part000.loadAssets decode o) tt = Returned a →
  ∀ key value, (key, value) ∈ assetEntries o →
    ∃ image, fieldOf key a = Some image.
Proof.
  intros Hopt Hret key value Hkv.
  pose proof (Part000_loadAssets_returns decode o a Hret) as Hall.
  unfold outcomeOf in Hret.
  rewrite (Part000_loadAssets_ok decode o Hall) in Hret.
  cbn [fst] in Hret. injection Hret as <-.
  assert (is_Some (decode (resolvePath o value))) as [image Hsome].
  { eapply Forall_forall in Hall; [exact Hall|].
    unfold requiredPaths, entryPaths. apply list_elem_of_fmap.
    exists (key, value). split; [reflexivity | exact Hkv]. }
  exists image. rewrite <- Hsome. clear Hsome Hall.
  destruct o as [assetPath dsc wm]. cbn in Hopt.
  destruct dsc, wm;
    try (destruct Hopt as [Hopt|Hopt]; discriminate Hopt);
    unfold assetEntries, requiredPaths, entryPaths in *; cbn in *;
    repeat (apply elem_of_cons in Hkv;
            destruct Hkv as [Hkv|Hkv];
            [injection Hkv as -> ->; reflexivity|]);
    inversion Hkv.
Qed.

(** ** The start zones and the watermark *)

(** X11. With [displayStartCells = false] the [blue] and [red] flags of a
    cell change nothing in either version: the cell emits what it would
    emit with both flags off, whatever the [ally] and [enemy] fields hold. *)
Theorem start_zone_flags_ignored_without_option
    (K : Constants.t) (a : LoadedAssets) (o : Options.t) (c : Cell)
    (s : gmap string Image) :
  Options.displayStartCells o = false →
  let plain :=
    mkCell (cellNumber c) (mov c) (los c) (nonWalkableDuringFight c)
      false false in
  traceOf (IndexTs.drawCell K a o c) s
  = traceOf (IndexTs.drawCell K a o plain) s
  ∧ traceOf (Part000.drawCell K a o c) tt
    = traceOf (Part000.drawCell K a o plain) tt.
Proof.
  intros Hdsc. unfold traceOf, IndexTs.drawCell, Part000.drawCell.
  rewrite Hdsc. cbn [cellNumber mov los nonWalkableDuringFight blue red].
  destruct (mov c), (los c), (nonWalkableDuringFight c), (blue c), (red c),
    (bool_decide (is_Some (ally a))), (bool_decide (is_Some (enemy a)));
    split; reflexivity.
Qed.

Lemma start_zone_flags_ignored_without_option_witness :
  traceOf (Part000.drawCell sampleConstants sampleAssets sampleOptions
             (mkCell 15 false true false true true)) tt
  = [].
Proof.
  exact (proj2
    (start_zone_flags_ignored_without_option sampleConstants sampleAssets
       sampleOptions (mkCell 15 false true false true true) ∅ eq_refl)).
Defined.

(** X12. [addWatermark], the same in both versions, makes one call: it draws
    the asset with a width that is the smaller of 100 and the asset's width
    (so a smaller logo keeps its size and a larger one is capped), likewise
    for the height, and places it so that its right and bottom edges are
    exactly ten pixels inside those of the canvas. *)
Theorem add_watermark_geometry
    (K : Constants.t) (asset : Image) (s : gmap string Image) :
  ∃ x y w h : Q,
    IndexTs.addWatermark K asset s
    = (Returned tt, s, [DrawImage (Some asset) x y w h])
    ∧ Part000.addWatermark K asset tt
      = (Returned tt, tt, [DrawImage (Some asset) x y w h])
    ∧ (w <= 100)%Q ∧ (w <= inject_Z (width asset))%Q
    ∧ (w = 100%Q ∨ w = inject_Z (width asset))
    ∧ (h <= 100)%Q ∧ (h <= inject_Z (height asset))%Q
    ∧ (h = 100%Q ∨ h = inject_Z (height asset))
    ∧ (x + w + 10 == Constants.WIDTH K)%Q
    ∧ (y + h + 10 == Constants.HEIGHT K)%Q.
Proof.
  eexists _, _, _, _. split; [reflexivity|]. split; [reflexivity|].
  assert (∀ d : Z,
            (inject_Z (Z.min 100 d) <= 100)%Q
            ∧ (inject_Z (Z.min 100 d) <= inject_Z d)%Q
            ∧ (inject_Z (Z.min 100 d) = 100%Q
               ∨ inject_Z (Z.min 100 d) = inject_Z d)) as Hmin.
  { intros d. change 100%Q with (inject_Z 100). rewrite <- !Zle_Qle.
    split; [lia|]. split; [lia|].
    destruct (Z.min_spec 100 d) as [[_ ->]|[_ ->]]; [left|right]; reflexivity. }
  destruct (Hmin (width asset)) as (? & ? & ?).
  destruct (Hmin (height asset)) as (? & ? & ?).
  repeat split; try assumption; change (inject_Z 10) with 10%Q; ring.
Qed.

(** X13. A render of [src/index.ts] that is asked for the watermark and
    completes stamps the logo exactly once: its last two calls are the draw
    of the image cached for the logo path, capped at 100 by 100 and ten
    pixels from the bottom-right corner, and [toBuffer]; everything before
    is the loads, the canvas set-up and the grid pass. *)
Theorem index_ts_stamps_logo_last
    (K : Constants.t) (decode : string → option Image)
    (m : IndexTs.Map) (o : Options.t) (s : gmap string Image)
    (a : LoadedAssets) (s1 : gmap string Image) (loads : list Event) :
  Options.addWatermark o = true →
  IndexTs.loadAssets decode o s = (Returned a, s1, loads) →
  ∃ asset,
    s1 !! resolvePath o "E-bou" = Some asset
    ∧ IndexTs.render K decode m o s
      = (Returned EncodedCanvas, s1,
         loads
         ++ [CreateCanvas (Constants.WIDTH K) (Constants.HEIGHT K);
             GetContext "2d"; SetFillStyle "black";
             FillRect 0 0 (Constants.WIDTH K) (Constants.HEIGHT K)]
         ++ traceOf (forOf (IndexTs.cellsData (IndexTs.mapData m))
                       (IndexTs.drawCell K a o)) s1
         ++ [DrawImage (Some asset)
               (Constants.WIDTH K - inject_Z (Z.min 100 (width asset)) - 10)
               (Constants.HEIGHT K - inject_Z (Z.min 100 (height asset)) - 10)
               (inject_Z (Z.min 100 (width asset)))
               (inject_Z (Z.min 100 (height asset)));
             ToBuffer]).
Proof.
  intros Hwm Hrun.
  destruct (IndexTs_stamps_watermark K decode m o s a s1 loads Hwm Hrun)
    as (asset & Hlogo & Hcached & _).
  exists asset. split; [exact Hcached|].
  rewrite IndexTs_render_run, Hrun.
  unfold Spec.watermarkLayer. rewrite Hwm, Hlogo.
  unfold traceOf at 2. erewrite forOf_emits; [reflexivity|].
  apply Forall_forall. intros c _ s'. apply IndexTs_drawCell_emits.
Qed.

Lemma index_ts_stamps_logo_last_witness :
  ∃ before,
    traceOf
      (IndexTs.render sampleConstants decodeAll
         (IndexTs.mkMap (IndexTs.mkMapData [sampleCell])) sampleOptions) ∅
    = before
      ++ [DrawImage (decodeAll "assets/E-bou.png") 1137 807 100 64; ToBuffer].
Proof.
  assert (∃ a s1 loads,
            IndexTs.loadAssets decodeAll sampleOptions ∅
            = (Returned a, s1, loads)) as (a & s1 & loads & Hrun).
  { destruct (IndexTs.loadAssets decodeAll sampleOptions ∅)
      as [[[a|e] s1] loads] eqn:Hrun; [eauto|].
    exfalso. vm_compute in Hrun. discriminate Hrun. }
  destruct (index_ts_stamps_logo_last sampleConstants decodeAll
              (IndexTs.mkMap (IndexTs.mkMapData [sampleCell]))
              sampleOptions ∅ a s1 loads eq_refl Hrun)
    as (asset & Hcached & Hrender).
  assert (s1 = stateOf (IndexTs.loadAssets decodeAll sampleOptions) ∅) as Hs1.
  { unfold stateOf. rewrite Hrun. reflexivity. }
  assert (Some asset = decodeAll "assets/E-bou.png") as Hasset.
  { rewrite <- Hcached, Hs1. vm_compute. reflexivity. }
  unfold traceOf at 1. rewrite Hrender. cbn [snd].
  eexists. rewrite !app_assoc. f_equal.
  injection Hasset as ->. reflexivity.
Defined.

Lemma loadsOf_one_at_a_time ps : loadsOf (oneAtATime ps) = ps.
Proof.
  induction ps as [|p ps IH]; [reflexivity|].
  unfold oneAtATime, loadsOf in *. cbn. rewrite IH. reflexivity.
Qed.

(** A render of [src/index.ts] only loads paths it requires. *)
Lemma IndexTs_render_loads_required K decode m o (s : gmap string Image) :
  Forall (λ p, p ∈ requiredPaths o)
    (loadsOf (traceOf (IndexTs.render K decode m o) s)).
Proof.
  rewrite (proj1 (IndexTs_render_loads K decode m o s)).
  destruct (loop_one_at_a_time decode o (assetEntries o) ∅ s)
    as (ps & Hps & Hall).
  rewrite Hps, loadsOf_one_at_a_time. exact Hall.
Qed.

Lemma logo_not_required o :
  Options.addWatermark o = false → resolvePath o "E-bou" ∉ requiredPaths o.
Proof.
  intros Hwm Hin. unfold requiredPaths, entryPaths in Hin.
  apply list_elem_of_fmap in Hin as ([key value] & Heq & Hin).
  cbn in Heq. apply resolvePath_inj in Heq.
  destruct o as [assetPath dsc wm]. cbn in Hwm. subst wm.
  destruct dsc; unfold assetEntries in Hin; cbn in Hin;
    repeat (apply elem_of_cons in Hin;
            destruct Hin as [Hin|Hin];
            [injection Hin as -> ->; discriminate Heq|]);
    inversion Hin.
Qed.

(** X14. With [addWatermark = false] neither version ever calls [loadImage]
    on the logo file, and a render that completes goes from the grid pass
    straight to [toBuffer]: nothing is stamped. *)
Theorem no_logo_without_option
    (K : Constants.t) (decode : string → option Image) (o : Options.t)
    (cells : list Cell) (s : gmap string Image) :
  Options.addWatermark o = false →
  let renderTs :=
    IndexTs.render K decode (IndexTs.mkMap (IndexTs.mkMapData cells)) o in
  let render000 := Part000.render K decode (Part000.mkMap cells) o in
  (resolvePath o "E-bou" ∉ loadsOf (traceOf renderTs s))
  ∧ (resolvePath o "E-bou" ∉ loadsOf (traceOf render000 tt))
  ∧ renderTs s
    = match IndexTs.loadAssets decode o s with
      | (Returned a, s1, loads) =>
          (Returned EncodedCanvas, s1,
           loads
           ++ [CreateCanvas (Constants.WIDTH K) (Constants.HEIGHT K);
               GetContext "2d"; SetFillStyle "black";
               FillRect 0 0 (Constants.WIDTH K) (Constants.HEIGHT K)]
           ++ traceOf (forOf cells (IndexTs.drawCell K a o)) s1
           ++ [ToBuffer])
      | (Thrown e, s1, loads) => (Thrown e, s1, loads)
      end
  ∧ render000 tt
    = match Part000.loadAssets decode o tt with
      | (Returned a, s1, loads) =>
          (Returned EncodedCanvas, s1,
           loads
           ++ [CreateCanvas (Constants.WIDTH K) (Constants.HEIGHT K);
               GetContext "2d"; SetFillStyle "black";
               FillRect 0 0 (Constants.WIDTH K) (Constants.HEIGHT K)]
           ++ traceOf (forOf cells (Part000.drawCell K a o)) s1
           ++ [ToBuffer])
      | (Thrown e, s1, loads) => (Thrown e, s1, loads)
      end.
Proof.
  intros Hwm. cbv zeta.
  pose proof (logo_not_required o Hwm) as Hnot.
  split; [|split; [|split]].
  - intros Hin. apply Hnot.
    pose proof (IndexTs_render_loads_required K decode
                  (IndexTs.mkMap (IndexTs.mkMapData cells)) o s) as Hall.
    rewrite Forall_forall in Hall. exact (Hall _ Hin).
  - rewrite Part000_render_loadsOf. exact Hnot.
  - rewrite IndexTs_render_run.
    destruct (IndexTs.loadAssets decode o s) as [[[a|e] s1] loads];
      [|reflexivity].
    rewrite (no_watermark_when_disabled K o a Hwm).
    unfold traceOf at 2. erewrite forOf_emits; [reflexivity|].
    apply Forall_forall. intros c _ s'. apply IndexTs_drawCell_emits.
  - rewrite Part000_render_run.
    destruct (Part000.loadAssets decode o tt) as [[[a|e] s1] loads];
      [|reflexivity].
    rewrite (no_watermark_when_disabled K o a Hwm).
    unfold traceOf at 2. erewrite forOf_emits; [reflexivity|].
    apply Forall_forall. intros c _ s'. apply Part000_drawCell_emits.
Qed.

Lemma no_logo_without_option_witness :
  "assets/E-bou.png"
  ∉ loadsOf
      (traceOf
         (Part000.render sampleConstants decodeAll
            (Part000.mkMap [sampleCell]) (Options.mk "assets" true false))
         tt).
Proof.
  exact (proj1 (proj2
    (no_logo_without_option sampleConstants decodeAll
       (Options.mk "assets" true false) [sampleCell] ∅ eq_refl))).
Defined.

(** X15. With [displayStartCells = true], once [loadAssets] has returned the
    [ally] and [enemy] images are defined in both versions, so the guards on
    them never hide a start zone: every [blue] cell draws the ally overlay
    and every [red] cell the enemy overlay, at [(x, y + CELL_OFFSET)], one
    cell wide and [CELL_DOUBLE_HEIGHT] high. *)
Theorem start_zones_drawn_when_displayed
    (K : Constants.t) (decode : string → option Image) (o : Options.t)
    (s : gmap string Image) (aTs a000 : LoadedAssets) (c : Cell) :
  Options.displayStartCells o = true →
  outcomeOf (IndexTs.loadAssets decode o) s = Returned aTs →
  outcomeOf (Part000.loadAssets decode o) tt = Returned a000 →
  let overlay image :=
    DrawImage image (cellX K (cellNumber c))
      (cellY K (cellNumber c) + Constants.CELL_OFFSET K)%Q
      (Constants.CELL_WIDTH K) (Constants.CELL_DOUBLE_HEIGHT K) in
  (is_Some (ally aTs) ∧ is_Some (enemy aTs)
   ∧ is_Some (ally a000) ∧ is_Some (enemy a000))
  ∧ (blue c = true →
     overlay (ally aTs) ∈ traceOf (IndexTs.drawCell K aTs o c) s
     ∧ overlay (ally a000) ∈ traceOf (Part000.drawCell K a000 o c) tt)
  ∧ (red c = true →
     overlay (enemy aTs) ∈ traceOf (IndexTs.drawCell K aTs o c) s
     ∧ overlay (enemy a000) ∈ traceOf (Part000.drawCell K a000 o c) tt).
Proof.
  intros Hdsc HTs H000. cbv zeta.
  destruct (index_ts_fields_defined_for_entries decode o s aTs "ally"
              "areaUnitAlly" HTs) as [iA HiA].
  { unfold assetEntries. rewrite Hdsc.
    destruct (Options.addWatermark o); cbn;
      do 3 apply list_elem_of_further; apply list_elem_of_here. }
  destruct (index_ts_fields_defined_for_entries decode o s aTs "enemy"
              "areaUnitEnemy" HTs) as [iE HiE].
  { unfold assetEntries. rewrite Hdsc.
    destruct (Options.addWatermark o); cbn;
      do 4 apply list_elem_of_further; apply list_elem_of_here. }
  cbn in HiA, HiE.
  destruct (part000_fields_defined_for_entries decode o a000
              (or_introl Hdsc) H000 "ally" "areaUnitAlly") as [pA HpA].
  { unfold assetEntries. rewrite Hdsc.
    destruct (Options.addWatermark o); cbn;
      do 3 apply list_elem_of_further; apply list_elem_of_here. }
  destruct (part000_fields_defined_for_entries decode o a000
              (or_introl Hdsc) H000 "enemy" "areaUnitEnemy") as [pE HpE].
  { unfold assetEntries. rewrite Hdsc.
    destruct (Options.addWatermark o); cbn;
      do 4 apply list_elem_of_further; apply list_elem_of_here. }
  cbn in HpA, HpE.
  split; [rewrite HiA, HiE, HpA, HpE; repeat split; eexists; reflexivity|].
  unfold traceOf, IndexTs.drawCell, Part000.drawCell, cellX, cellY.
  rewrite Hdsc, HiA, HiE, HpA, HpE.
  split; intros Hflag; rewrite Hflag;
    destruct (mov c), (los c), (nonWalkableDuringFight c);
    try destruct (red c); try destruct (blue c);
    cbn; split;
    repeat first [ apply list_elem_of_here | apply list_elem_of_further ].
Qed.

Lemma start_zones_drawn_when_displayed_witness :
  let o := Options.mk "assets" true true in
  let a :=
    {| high := decodeAll "assets/areaUnitHigh.png";
       gray := decodeAll "assets/grayCell.png";
       purple := decodeAll "assets/purpleCell.png";
       ally := decodeAll "assets/areaUnitAlly.png";
       enemy := decodeAll "assets/areaUnitEnemy.png";
       logo := decodeAll "assets/E-bou.png" |} in
  DrawImage (ally a) 129 (43 # 2) 86 86
  ∈ traceOf (IndexTs.drawCell sampleConstants a o sampleCell) ∅.
Proof.
  intros o a.
  assert (outcomeOf (IndexTs.loadAssets decodeAll o) ∅ = Returned a) as HTs
    by (vm_compute; reflexivity).
  destruct (start_zones_drawn_when_displayed sampleConstants decodeAll o ∅
              a a sampleCell eq_refl HTs eq_refl) as (_ & Hblue & _).
  exact (proj1 (Hblue eq_refl)).
Defined.

(** ** The layout of the grid *)

Lemma tile_is_first_draw K (a : LoadedAssets) o k ls bl rd
    (s : gmap string Image) :
  let walkable := mkCell k true ls false bl rd in
  let tileDraw :=
    DrawImage (cellTile K a k) (cellX K k) (cellY K k)
      (Constants.CELL_WIDTH K) (Constants.CELL_HEIGHT K) in
  head (traceOf (IndexTs.drawCell K a o walkable) s) = Some tileDraw
  ∧ head (traceOf (Part000.drawCell K a o walkable) tt) = Some tileDraw.
Proof.
  unfold traceOf, IndexTs.drawCell, Part000.drawCell, cellTile, cellX, cellY.
  cbn [cellNumber mov los nonWalkableDuringFight blue red].
  destruct ls, bl, rd, (Options.displayStartCells o),
    (bool_decide (is_Some (ally a))), (bool_decide (is_Some (enemy a)));
    split; reflexivity.
Qed.

Section GridArithmetic.
Variable K : Constants.t.
Hypothesis HK : 0 < Constants.MAP_WIDTH K.

Lemma row_of_next_row n :
  0 ≤ n →
  (n + Constants.MAP_WIDTH K) / Constants.MAP_WIDTH K
  = n / Constants.MAP_WIDTH K + 1
  ∧ Z.rem (n + Constants.MAP_WIDTH K) (Constants.MAP_WIDTH K)
    = Z.rem n (Constants.MAP_WIDTH K).
Proof.
  intros Hn. split.
  - replace (n + Constants.MAP_WIDTH K)
      with (n + 1 * Constants.MAP_WIDTH K) by lia.
    apply Z.div_add. lia.
  - rewrite !Z.rem_mod_nonneg by lia.
    replace (n + Constants.MAP_WIDTH K)
      with (n + 1 * Constants.MAP_WIDTH K) by lia.
    apply Z.mod_add. lia.
Qed.

Lemma parity_rem r :
  0 ≤ r →
  Z.rem r 2 = (if Z.even r then 0 else 1)
  ∧ Z.rem (r + 1) 2 = (if Z.even r then 1 else 0).
Proof.
  intros Hr. rewrite !Z.rem_mod_nonneg by lia.
  rewrite (Zmod_even r), (Zmod_even (r + 1)), Z.even_add.
  destruct (Z.even r); split; reflexivity.
Qed.

Lemma row_nonneg n : 0 ≤ n → 0 ≤ n / Constants.MAP_WIDTH K.
Proof. intros Hn. apply Z.div_pos; lia. Qed.

End GridArithmetic.

(** X16. The rows are laid like bricks. A walkable cell's first draw is its
    tile, at [(x, y)] as the loop computes them. One row down (cell number
    plus [MAP_WIDTH]) [y] grows by [CELL_HALF_HEIGHT], [x] shifts by
    [CELL_HALF_WIDTH] (to the right from an even row, back to the left from
    an odd one) and the tile changes colour: gray on even rows, purple on odd
    ones. *)
Theorem next_row_is_staggered
    (K : Constants.t) (a : LoadedAssets) (o : Options.t) (n : Z)
    (ls bl rd : bool) (s : gmap string Image) :
  0 < Constants.MAP_WIDTH K → 0 ≤ n →
  let below := n + Constants.MAP_WIDTH K in
  let tileDraw k :=
    DrawImage (cellTile K a k) (cellX K k) (cellY K k)
      (Constants.CELL_WIDTH K) (Constants.CELL_HEIGHT K) in
  let trace000 k :=
    traceOf (Part000.drawCell K a o (mkCell k true ls false bl rd)) tt in
  let traceTs k :=
    traceOf (IndexTs.drawCell K a o (mkCell k true ls false bl rd)) s in
  head (trace000 n) = Some (tileDraw n)
  ∧ head (traceTs n) = Some (tileDraw n)
  ∧ head (trace000 below) = Some (tileDraw below)
  ∧ head (traceTs below) = Some (tileDraw below)
  ∧ (cellY K below == cellY K n + Constants.CELL_HALF_HEIGHT K)%Q
  ∧ (if Z.even (n / Constants.MAP_WIDTH K)
     then (cellX K below == cellX K n + Constants.CELL_HALF_WIDTH K)%Q
          ∧ cellTile K a n = gray a ∧ cellTile K a below = purple a
     else (cellX K below == cellX K n - Constants.CELL_HALF_WIDTH K)%Q
          ∧ cellTile K a n = purple a ∧ cellTile K a below = gray a).
Proof.
  intros HK Hn. cbv zeta.
  destruct (tile_is_first_draw K a o n ls bl rd s) as [HTs H000].
  destruct (tile_is_first_draw K a o (n + Constants.MAP_WIDTH K) ls bl rd s)
    as [HTs' H000'].
  do 4 (split; [assumption|]).
  destruct (row_of_next_row K HK n Hn) as [Hrow Hcol].
  destruct (parity_rem (n / Constants.MAP_WIDTH K) (row_nonneg K HK n Hn))
    as [Hpar Hpar'].
  unfold cellX, cellY, cellTile. rewrite Hrow, Hcol, Hpar, Hpar'.
  rewrite inject_Z_plus.
  destruct (Z.even (n / Constants.MAP_WIDTH K)); cbn [Z.eqb];
    (split; [ring|]); (split; [ring|]); split; reflexivity.
Qed.

Lemma next_row_is_staggered_witness :
  (cellY sampleConstants 29 == cellY sampleConstants 15 + (43 # 2))%Q
  ∧ (cellX sampleConstants 29 == cellX sampleConstants 15 - 43)%Q
  ∧ cellTile sampleConstants sampleAssets 29 = gray sampleAssets.
Proof.
  pose proof (next_row_is_staggered sampleConstants sampleAssets
                sampleOptions 15 true false false ∅
                eq_refl ltac:(discriminate)) as (_ & _ & _ & _ & Hy & Hx).
  split; [exact Hy|]. exact (conj (proj1 Hx) (proj2 (proj2 Hx))).
Defined.

(** X17. Within a row the cells follow one another: when cell [n] is not the
    last of its row, cell [n + 1] is drawn [CELL_WIDTH] further right, at the
    same [y] and with the same tile. *)
Theorem same_row_neighbours
    (K : Constants.t) (a : LoadedAssets) (o : Options.t) (n : Z)
    (ls bl rd : bool) (s : gmap string Image) :
  0 < Constants.MAP_WIDTH K → 0 ≤ n →
  n mod Constants.MAP_WIDTH K + 1 < Constants.MAP_WIDTH K →
  let tileDraw k :=
    DrawImage (cellTile K a k) (cellX K k) (cellY K k)
      (Constants.CELL_WIDTH K) (Constants.CELL_HEIGHT K) in
  let trace000 k :=
    traceOf (Part000.drawCell K a o (mkCell k true ls false bl rd)) tt in
  let traceTs k :=
    traceOf (IndexTs.drawCell K a o (mkCell k true ls false bl rd)) s in
  head (trace000 n) = Some (tileDraw n)
  ∧ head (traceTs n) = Some (tileDraw n)
  ∧ head (trace000 (n + 1)) = Some (tileDraw (n + 1))
  ∧ head (traceTs (n + 1)) = Some (tileDraw (n + 1))
  ∧ (cellX K (n + 1) == cellX K n + Constants.CELL_WIDTH K)%Q
  ∧ cellY K (n + 1) = cellY K n
  ∧ cellTile K a (n + 1) = cellTile K a n.
Proof.
  intros HK Hn Hcol. cbv zeta.
  destruct (tile_is_first_draw K a o n ls bl rd s) as [HTs H000].
  destruct (tile_is_first_draw K a o (n + 1) ls bl rd s) as [HTs' H000'].
  do 4 (split; [assumption|]).
  assert ((n + 1) / Constants.MAP_WIDTH K = n / Constants.MAP_WIDTH K
          ∧ (n + 1) mod Constants.MAP_WIDTH K
            = n mod Constants.MAP_WIDTH K + 1) as [Hrow Hmod].
  { pose proof (Z.div_mod n (Constants.MAP_WIDTH K) ltac:(lia)) as Hdm.
    pose proof (Z.mod_pos_bound n (Constants.MAP_WIDTH K) HK) as Hb.
    split; symmetry.
    - apply (Z.div_unique (n + 1) (Constants.MAP_WIDTH K)
               (n / Constants.MAP_WIDTH K)
               (n mod Constants.MAP_WIDTH K + 1)); [left; lia | lia].
    - apply (Z.mod_unique (n + 1) (Constants.MAP_WIDTH K)
               (n / Constants.MAP_WIDTH K)
               (n mod Constants.MAP_WIDTH K + 1)); [left; lia | lia]. }
  unfold cellX, cellY, cellTile.
  rewrite Hrow, !Z.rem_mod_nonneg by (try apply row_nonneg; lia).
  rewrite Hmod, inject_Z_plus.
  split; [ring|]. split; reflexivity.
Qed.

Lemma same_row_neighbours_witness :
  (cellX sampleConstants 16 == cellX sampleConstants 15 + 86)%Q
  ∧ cellY sampleConstants 16 = cellY sampleConstants 15.
Proof.
  pose proof (same_row_neighbours sampleConstants sampleAssets
                sampleOptions 15 true false false ∅
                eq_refl ltac:(discriminate) eq_refl)
    as (_ & _ & _ & _ & Hx & Hy & _).
  exact (conj Hx Hy).
Defined.

(** X18. No two cells share a position: with a cell width and a half cell
    height that are not zero, two non-negative cell numbers for which the
    loop computes the same [(x, y)] are the same number. *)
Theorem cells_at_distinct_positions (K : Constants.t) (n n' : Z) :
  0 < Constants.MAP_WIDTH K → 0 ≤ n → 0 ≤ n' →
  ¬ (Constants.CELL_WIDTH K == 0)%Q →
  ¬ (Constants.CELL_HALF_HEIGHT K == 0)%Q →
  (cellX K n == cellX K n')%Q → (cellY K n == cellY K n')%Q →
  n = n'.
Proof.
  intros HK Hn Hn' Hcw Hchh Hx Hy. unfold cellX, cellY in *.
  apply (proj1 (Qmult_inj_r _ _ _ Hchh)) in Hy.
  apply (proj1 (inject_Z_injective _ _)) in Hy. rewrite Hy in Hx.
  apply (proj1 (Qplus_inj_r _ _ _)) in Hx.
  apply (proj1 (Qmult_inj_r _ _ _ Hcw)) in Hx.
  apply (proj1 (inject_Z_injective _ _)) in Hx.
  rewrite !Z.rem_mod_nonneg in Hx by lia.
  rewrite (Z.div_mod n (Constants.MAP_WIDTH K)) by lia.
  rewrite (Z.div_mod n' (Constants.MAP_WIDTH K)) by lia.
  rewrite Hx, Hy. reflexivity.
Qed.

Lemma cells_at_distinct_positions_witness :
  ¬ ((cellX sampleConstants 15 == cellX sampleConstants 29)%Q
     ∧ (cellY sampleConstants 15 == cellY sampleConstants 29)%Q).
Proof.
  intros [Hx Hy].
  pose proof (cells_at_distinct_positions sampleConstants 15 29
                eq_refl ltac:(discriminate) ltac:(discriminate)
                ltac:(discriminate) ltac:(discriminate) Hx Hy) as Heq.
  discriminate Heq.
Defined.

Lemma cellX_bounds (K : Constants.t) (n : Z) :
  0 < Constants.MAP_WIDTH K → 0 ≤ n →
  (0 <= Constants.CELL_WIDTH K)%Q → (0 <= Constants.CELL_HALF_WIDTH K)%Q →
  (0 <= cellX K n)%Q
  ∧ (cellX K n + Constants.CELL_WIDTH K
     <= inject_Z (Constants.MAP_WIDTH K) * Constants.CELL_WIDTH K
        + Constants.CELL_HALF_WIDTH K)%Q.
Proof.
  intros HK Hn Hcw Hchw. unfold cellX.
  rewrite !Z.rem_mod_nonneg by (try apply row_nonneg; lia).
  pose proof (Z.mod_pos_bound n (Constants.MAP_WIDTH K) HK) as [Hc0 Hc1].
  pose proof (Z.mod_pos_bound (n / Constants.MAP_WIDTH K) 2 ltac:(lia))
    as [Hp0 Hp1].
  set (c := n mod Constants.MAP_WIDTH K) in *.
  set (p := (n / Constants.MAP_WIDTH K) mod 2) in *.
  assert (0 <= inject_Z c)%Q as Qc0
    by (change 0%Q with (inject_Z 0); rewrite <- Zle_Qle; lia).
  assert (inject_Z c <= inject_Z (Constants.MAP_WIDTH K) - 1)%Q as Qc1.
  { change 1%Q with (inject_Z 1). unfold Qminus.
    rewrite <- inject_Z_opp, <- inject_Z_plus, <- Zle_Qle. lia. }
  assert (0 <= inject_Z p)%Q as Qp0
    by (change 0%Q with (inject_Z 0); rewrite <- Zle_Qle; lia).
  assert (inject_Z p <= 1)%Q as Qp1
    by (change 1%Q with (inject_Z 1); rewrite <- Zle_Qle; lia).
  generalize dependent (inject_Z c). generalize dependent (inject_Z p).
  generalize (inject_Z (Constants.MAP_WIDTH K)).
  intros M P HP0 HP1 C HC0 HC1. split; nra.
Qed.

(** X19. A cell of the grid stays inside the grid horizontally: for a
    non-negative cell number and non-negative cell widths, every image either
    version draws for the cell starts at an [x] that is not negative and ends
    (x plus the drawn width) no further than [MAP_WIDTH] cell widths plus the
    half cell width of the stagger. *)
Theorem cell_draws_stay_inside_the_grid
    (K : Constants.t) (a : LoadedAssets) (o : Options.t) (c : Cell)
    (s : gmap string Image) :
  0 < Constants.MAP_WIDTH K → 0 ≤ cellNumber c →
  (0 <= Constants.CELL_WIDTH K)%Q → (0 <= Constants.CELL_HALF_WIDTH K)%Q →
  let inside e :=
    match e with
    | DrawImage _ dx _ dw _ =>
        (0 <= dx)%Q
        ∧ (dx + dw
           <= inject_Z (Constants.MAP_WIDTH K) * Constants.CELL_WIDTH K
              + Constants.CELL_HALF_WIDTH K)%Q
    | _ => True
    end in
  Forall inside (traceOf (IndexTs.drawCell K a o c) s)
  ∧ Forall inside (traceOf (Part000.drawCell K a o c) tt).
Proof.
  intros HK Hc Hcw Hchw. cbv zeta.
  pose proof (cellX_bounds K (cellNumber c) HK Hc Hcw Hchw) as Hb.
  unfold cellX in Hb.
  unfold traceOf, IndexTs.drawCell, Part000.drawCell.
  destruct (mov c), (los c), (nonWalkableDuringFight c), (blue c), (red c),
    (Options.displayStartCells o),
    (bool_decide (is_Some (ally a))), (bool_decide (is_Some (enemy a)));
    cbn; split; repeat (constructor; [first [exact Hb | exact I]|]);
    constructor.
Qed.

Lemma cell_draws_stay_inside_the_grid_witness :
  Forall
    (λ e, match e with
          | DrawImage _ dx _ dw _ =>
              (0 <= dx)%Q ∧ (dx + dw <= inject_Z 14 * 86 + 43)%Q
          | _ => True
          end)
    (traceOf (Part000.drawCell sampleConstants sampleAssets sampleOptions
                sampleCell) tt).
Proof.
  exact (proj2
    (cell_draws_stay_inside_the_grid sampleConstants sampleAssets
       sampleOptions sampleCell ∅ eq_refl ltac:(discriminate)
       ltac:(discriminate) ltac:(discriminate))).
Defined.

(** ** Exactly which files a render decodes *)

Lemma filter_uncached_insert (s : gmap string Image) q image
    (l : list string) :
  q ∉ l →
  filter (λ p, <[q := image]> s !! p = None) l
  = filter (λ p, s !! p = None) l.
Proof.
  induction l as [|p l IH]; intros Hq; [reflexivity|].
  apply not_elem_of_cons in Hq as [Hne Hq].
  destruct (s !! p) as [c|] eqn:Hs.
  - rewrite !filter_cons_False, (IH Hq); [reflexivity|congruence|].
    rewrite lookup_insert_ne by exact Hne. congruence.
  - rewrite !filter_cons_True, (IH Hq); [reflexivity|exact Hs|].
    rewrite lookup_insert_ne by exact Hne. exact Hs.
Qed.

Lemma loop_loads_missing decode o l : ∀ la (s : gmap string Image) la',
  NoDup (entryPaths o l) →
  outcomeOf (forOfAcc l (IndexTs.loadAsset decode o) la) s = Returned la' →
  loadsOf (traceOf (forOfAcc l (IndexTs.loadAsset decode o) la) s)
  = filter (λ p, s !! p = None) (entryPaths o l).
Proof.
  unfold outcomeOf, traceOf.
  induction l as [|[key value] l IH]; intros la s la' Hnd Hret;
    [reflexivity|].
  change (entryPaths o ((key, value) :: l))
    with (resolvePath o value :: entryPaths o l) in *.
  apply NoDup_cons in Hnd as [Hnotin Hnd].
  destruct (s !! resolvePath o value) as [cached|] eqn:Hs.
  - rewrite (loop_cons_hit _ _ _ _ _ _ _ _ Hs) in *.
    rewrite filter_cons_False by congruence. eapply IH; eassumption.
  - destruct (decode (resolvePath o value)) as [img|] eqn:Hd.
    + rewrite (loop_cons_miss _ _ _ _ _ _ _ _ Hs Hd) in *.
      cbn [fst snd] in *.
      rewrite filter_cons_True by exact Hs.
      rewrite loadsOf_app.
      change (loadsOf [LoadImage (resolvePath o value);
                       Await (resolvePath o value)])
        with [resolvePath o value].
      cbn [app]. f_equal.
      rewrite (IH _ _ la' Hnd Hret).
      apply filter_uncached_insert, Hnotin.
    + rewrite (loop_cons_fail _ _ _ _ _ _ _ Hs Hd) in Hret.
      discriminate Hret.
Qed.

(** X20. A render of [src/index.ts] that completes has called [loadImage]
    on exactly the required paths that were missing from the cache, once each
    and in the order of the assets; the cached ones are not decoded again. *)
Theorem render_decodes_what_the_cache_lacks
    (K : Constants.t) (decode : string → option Image)
    (m : IndexTs.Map) (o : Options.t) (s : gmap string Image) (b : Buffer) :
  outcomeOf (IndexTs.render K decode m o) s = Returned b →
  loadsOf (traceOf (IndexTs.render K decode m o) s)
  = filter (λ p, s !! p = None) (requiredPaths o).
Proof.
  intros Hret.
  destruct (IndexTs_render_returns _ _ _ _ _ _ Hret) as [la Hla].
  rewrite (proj1 (IndexTs_render_loads K decode m o s)).
  apply (loop_loads_missing decode o (assetEntries o) ∅ s la
           (requiredPaths_NoDup o) Hla).
Qed.

Lemma render_decodes_what_the_cache_lacks_witness :
  loadsOf
    (traceOf
       (IndexTs.render sampleConstants decodeAll
          (IndexTs.mkMap (IndexTs.mkMapData [sampleCell])) sampleOptions)
       {[ "assets/grayCell.png" := mkImage "assets/grayCell.png" 256 64 ]})
  = ["assets/areaUnitHigh.png"; "assets/purpleCell.png";
     "assets/E-bou.png"].
Proof.
  assert (outcomeOf
            (IndexTs.render sampleConstants decodeAll
               (IndexTs.mkMap (IndexTs.mkMapData [sampleCell]))
               sampleOptions)
            {[ "assets/grayCell.png" :=
                 mkImage "assets/grayCell.png" 256 64 ]}
          = Returned EncodedCanvas) as Hret by (vm_compute; reflexivity).
  rewrite (render_decodes_what_the_cache_lacks _ _ _ _ _ _ Hret).
  vm_compute. reflexivity.
Defined.

(** X21. A negative cell number is not rejected: the loop computes a
    position for it with JavaScript's remainder, which takes the sign of the
    dividend, so a walkable cell with a negative number still gets its tile
    drawn, above and not to the right of the canvas origin ([x <= 0] and
    [y < 0] for non-negative widths and a positive half height). *)
Theorem negative_cell_is_drawn_off_canvas
    (K : Constants.t) (a : LoadedAssets) (o : Options.t) (n : Z)
    (ls bl rd : bool) (s : gmap string Image) :
  0 < Constants.MAP_WIDTH K → n < 0 →
  (0 <= Constants.CELL_WIDTH K)%Q → (0 <= Constants.CELL_HALF_WIDTH K)%Q →
  (0 < Constants.CELL_HALF_HEIGHT K)%Q →
  let walkable := mkCell n true ls false bl rd in
  let tileDraw :=
    DrawImage (cellTile K a n) (cellX K n) (cellY K n)
      (Constants.CELL_WIDTH K) (Constants.CELL_HEIGHT K) in
  head (traceOf (IndexTs.drawCell K a o walkable) s) = Some tileDraw
  ∧ head (traceOf (Part000.drawCell K a o walkable) tt) = Some tileDraw
  ∧ (cellX K n <= 0)%Q ∧ (cellY K n < 0)%Q.
Proof.
  intros HK Hn Hcw Hchw Hchh. cbv zeta.
  destruct (tile_is_first_draw K a o n ls bl rd s) as [HTs H000].
  split; [exact HTs|]. split; [exact H000|].
  unfold cellX, cellY.
  pose proof (Z.rem_nonpos n (Constants.MAP_WIDTH K) ltac:(lia) ltac:(lia))
    as Hcol.
  assert (n / Constants.MAP_WIDTH K < 0) as Hrow
    by (apply Z.div_lt_upper_bound; lia).
  pose proof (Z.rem_nonpos (n / Constants.MAP_WIDTH K) 2 ltac:(lia)
                ltac:(lia)) as Hpar.
  assert (inject_Z (Z.rem n (Constants.MAP_WIDTH K)) <= 0)%Q as Qcol
    by (change 0%Q with (inject_Z 0); rewrite <- Zle_Qle; exact Hcol).
  assert (inject_Z (Z.rem (n / Constants.MAP_WIDTH K) 2) <= 0)%Q as Qpar
    by (change 0%Q with (inject_Z 0); rewrite <- Zle_Qle; exact Hpar).
  assert (inject_Z (n / Constants.MAP_WIDTH K) < 0)%Q as Qrow
    by (change 0%Q with (inject_Z 0); rewrite <- Zlt_Qlt; exact Hrow).
  generalize dependent (inject_Z (Z.rem n (Constants.MAP_WIDTH K))).
  generalize dependent (inject_Z (Z.rem (n / Constants.MAP_WIDTH K) 2)).
  generalize dependent (inject_Z (n / Constants.MAP_WIDTH K)).
  intros R HR P HP C HC. split; nra.
Qed.

Lemma negative_cell_is_drawn_off_canvas_witness :
  head (traceOf (Part000.drawCell sampleConstants sampleAssets sampleOptions
                   (mkCell (-1) true true false false false)) tt)
  = Some (DrawImage (purple sampleAssets) (-129) (- (43 # 2)) 86 43).
Proof.
  exact (proj1 (proj2
    (negative_cell_is_drawn_off_canvas sampleConstants sampleAssets
       sampleOptions (-1) true false false ∅
       eq_refl eq_refl ltac:(discriminate) ltac:(discriminate) eq_refl))).
Defined.
